(** * Bank reconciliation: [conciliar] of conciliador.py

    A shallow embedding of the matching core of [conciliador.py] and the
    properties stated about it.  The pandas operations the function calls
    ([sort_values], [merge_asof], [isin], [dropna], [merge]) are modelled
    after their documented behaviour in the module [Pandas]; the function
    itself is transcribed statement by statement in [conciliar].  The
    cleaning and the figures of the report follow, in [limpiar_datos] and
    [generar_reporte].

    Conventions of the model:
    - a frame is a list of typed rows: its columns have the types the
      loading and the cleaning give them (['idcuenta'] text, ['fecha']
      [datetime64[ns]], ['importe'] numeric), also when it has no row;
    - a cell of the column ['importe'] is a number as pandas holds it, an
      [int64] or a [float64] with two decimals and a sign (the cleaning
      step rounds every amount to two decimals before [conciliar] sees
      it); [importe] is its value in hundredths.  A column of pandas has
      one type for all its cells; here every row carries its own cell, so
      what is shown of all frames holds of those, and each frame of the
      examples is of one type.  Amounts are taken finite and below [1e13]
      in absolute value, where a [float64] tells hundredths apart and
      Python prints it with at most two decimals and no exponent;
    - [fecha] is a [datetime64[ns]] value: nanoseconds since the epoch;
      the timestamps of one call are taken less than [2^63] nanoseconds
      apart, so that no difference of two of them overflows;
    - [tolerancia_horas] is a whole number of hours;
    - an exception raised by pandas ends the call: [conciliar] returns
      either the exception or its four frames;
    - [otros] holds the remaining columns of a row (for instance the
      column [depositos] of the bank statement), in column order. *)

From Stdlib Require Import Ascii Qcanon.
From stdpp Require Import numbers base tactics option list sorting strings pretty gmap.

Local Open Scope Z_scope.

(** ** Rows *)

(** A cell of an amount column: an integer of an [int64] column, or a
    float of a [float64] column given by its sign and its magnitude in
    hundredths (so that [0.0] and [-0.0] are two cells). *)
Inductive Numero :=
  | Int64 (n : Z)
  | Float64 (negativo : bool) (centesimas : N).

Global Instance Numero_eq_dec : EqDecision Numero.
Proof. solve_decision. Defined.

(** The value of a cell, in hundredths. *)
Definition centavos (x : Numero) : Z :=
  match x with
  | Int64 n => 100 * n
  | Float64 s m => if s then - Z.of_N m else Z.of_N m
  end.

Record Fila := mkFila_celda {
  idcuenta : string;
  celda_importe : Numero;
  fecha : Z;
  otros : list string
}.

Global Instance Fila_eq_dec : EqDecision Fila.
Proof. solve_decision. Defined.

Definition importe (f : Fila) : Z := centavos (celda_importe f).

(** The float cell that holds [c] hundredths. *)
Definition float_de (c : Z) : Numero :=
  Float64 (bool_decide (c < 0)) (Z.to_N (Z.abs c)).

(** A row whose amount is the float of [c] hundredths. *)
Definition mkFila (id_ : string) (c : Z) (f : Z) (o : list string) : Fila :=
  mkFila_celda id_ (float_de c) f o.

(** A row of a working copy, after the column ['key'] has been assigned. *)
Record FilaKey := mkFilaKey {
  cols : Fila;
  key : string
}.

Global Instance FilaKey_eq_dec : EqDecision FilaKey.
Proof. solve_decision. Defined.

(** ** The pandas operations used by [conciliar] *)

Module Pandas.

Inductive excepcion := MergeError | OutOfBoundsTimedelta.

  (** The text Python gives a float of [n] hundredths in magnitude: the
      shortest decimal that reads back as the same float, with at least
      one digit after the point ([100.0], [95.5], [12.34], [-0.0]). *)
Definition float_str (negativo : bool) (n : Z) : string :=
    let d := (n `mod` 100) `div` 10 in
    let u := n `mod` 10 in
    (if negativo then "-" else "")
      +:+ pretty (n `div` 100) +:+ "." +:+ pretty d
      +:+ (if decide (u = 0) then "" else pretty u).

  (** [Series.astype(str)] on one cell of an amount column: an [int64]
      prints without a decimal point ([100]), a [float64] with one
      ([100.0]). *)
Definition astype_str (x : Numero) : string :=
    match x with
    | Int64 n => pretty n
    | Float64 s m => float_str s (Z.of_N m)
    end.

  (** [h] hours in nanoseconds. *)
Definition horas_ns (h : Z) : Z := h * 3600000000000.

  (** [pd.Timedelta(hours=h)]: a signed 64-bit count of nanoseconds;
      beyond that range the constructor raises. *)
Definition Timedelta_hours (h : Z) : excepcion + Z :=
    if decide (Z.abs (horas_ns h) ≤ 9223372036854775807) then inr (horas_ns h)
    else inl OutOfBoundsTimedelta.

  (** [Series.dropna()]: the present values, in order. *)
Definition dropna {A} (s : list (option A)) : list A := omap id s.

Section Orden.
Context {A : Type} (on : A → Z).

    (** [DataFrame.sort_values(on)]: ascending.  Rows with equal values are
        kept here in their relative order; pandas sorts with quicksort,
        which leaves the order of such rows open.  The statements below
        are on what holds for every such order, and no frame of the
        examples has two rows of equal ['fecha'] but where that is the
        point. *)
Fixpoint insertar (x : A) (l : list A) : list A :=
      match l with
      | [] => [x]
      | y :: l' => if decide (on x ≤ on y) then x :: l else y :: insertar x l'
      end.

Definition sort_values (l : list A) : list A := foldr insertar [] l.
End Orden.

Section MergeAsof.
Context {A K : Type} `{EqDecision K} (on : A → Z) (by_ : A → K).

    (** Backward search: the last row of [right] (sorted on [on]) of the
        same group whose value is at most the left value; dropped when it
        is farther than the tolerance. *)
Definition asof_backward (tolerance : Z) (right : list A) (l : A) : option A :=
      match last (filter (λ r, by_ r = by_ l ∧ on r ≤ on l) right) with
      | Some r => if decide (on l - on r > tolerance) then None else Some r
      | None => None
      end.

    (** Forward search: the first row of the same group whose value is at
        least the left value; dropped when farther than the tolerance. *)
Definition asof_forward (tolerance : Z) (right : list A) (l : A) : option A :=
      match head (filter (λ r, by_ r = by_ l ∧ on l ≤ on r) right) with
      | Some r => if decide (on r - on l > tolerance) then None else Some r
      | None => None
      end.

    (** [direction='nearest']: the closer of the two; the backward row wins
        a tie. *)
Definition asof_nearest (tolerance : Z) (right : list A) (l : A) : option A :=
      match asof_backward tolerance right l, asof_forward tolerance right l with
      | Some b, Some f => if decide (on l - on b ≤ on f - on l) then Some b else Some f
      | Some b, None => Some b
      | None, f => f
      end.

    (** [pd.merge_asof(left, right, on, by, direction='nearest', tolerance)]
        on frames sorted on [on]: a left join, one output row per left row,
        in the order of [left].  A negative tolerance is refused. *)
Definition merge_asof (tolerance : Z) (left right : list A)
      : excepcion + list (A * option A) :=
      if decide (tolerance < 0) then inl MergeError
      else inr (map (λ l, (l, asof_nearest tolerance right l)) left).
End MergeAsof.

  (** [pd.merge(left, right, on=cols, how='inner')]: every pair of rows that
      agree on the join columns. *)
Definition merge_inner {A K : Type} `{EqDecision K} (on : A → K)
      (left right : list A) : list (A * A) :=
    l ← left; r ← filter (λ r, on r = on l) right; [(l, r)].

  (** [Series.isin(values)] for one value. *)
Definition isin (k : string) (values : gset string) : bool :=
    bool_decide (k ∈ values).

End Pandas.

Import Pandas.

(** ** Output rows *)

(** A row of the frame returned first: the merge on ['fecha'] by ['key'],
    with ['key'] dropped.  ['fecha'] is the bank row's; the columns both
    frames share carry a suffix; the sale side is null when nothing was
    found.  The amount columns of the merged frames are kept as numbers,
    in hundredths. *)
Record FilaConciliada := mkConciliada {
  c_fecha : Z;
  idcuenta_banco : string;
  importe_banco : Z;
  otros_banco : list string;
  idcuenta_venta : option string;
  importe_venta : option Z;
  otros_venta : option (list string)
}.

Global Instance FilaConciliada_eq_dec : EqDecision FilaConciliada.
Proof. solve_decision. Defined.

(** A row of the merge on ['fecha'] by ['idcuenta']. *)
Record FilaDiferencia := mkDiferencia {
  d_fecha : Z;
  d_idcuenta : string;
  d_importe_banco : Z;
  d_key_banco : string;
  d_otros_banco : list string;
  d_importe_venta : option Z;
  d_key_venta : option string;
  d_otros_venta : option (list string)
}.

Global Instance FilaDiferencia_eq_dec : EqDecision FilaDiferencia.
Proof. solve_decision. Defined.

Record Salida := mkSalida {
  conciliados : list FilaConciliada;
  ventas_sin_depositar : list Fila;
  depositos_sin_registro : list Fila;
  dif_importe : list FilaDiferencia
}.

(** ** [conciliar] *)

(** [df['key'] = df['idcuenta'] + df['importe'].astype(str)] *)
Definition clave (f : Fila) : string :=
  idcuenta f +:+ astype_str (celda_importe f).

Definition asignar_key (df : list Fila) : list FilaKey :=
  map (λ f, mkFilaKey f (clave f)) df.

Definition fecha_k (r : FilaKey) : Z := fecha (cols r).

(** Columns of a row of [conciliados_tol] once ['key'] is dropped. *)
Definition columnas_conciliado (p : FilaKey * option FilaKey) : FilaConciliada :=
  let b := cols p.1 in
  let v := cols <$> p.2 in
  mkConciliada (fecha b) (idcuenta b) (importe b) (otros b)
    (idcuenta <$> v) (importe <$> v) (otros <$> v).

(** Columns of a row of the merge by ['idcuenta']. *)
Definition columnas_diferencia (p : FilaKey * option FilaKey) : FilaDiferencia :=
  let b := p.1 in
  let v := p.2 in
  mkDiferencia (fecha_k b) (idcuenta (cols b)) (importe (cols b)) (key b)
    (otros (cols b))
    (importe ∘ cols <$> v) (key <$> v) (otros ∘ cols <$> v).

(** The column ['key'] of [conciliados_tol]: the merge is a left join by
    ['key'], so the column is the bank side's. *)
Definition columna_key (m : list (FilaKey * option FilaKey)) : list (option string) :=
  map (λ p, Some (key p.1)) m.

(** The tolerance merge of the two working copies (line 57). *)
Definition conciliados_tol (df_banco_ df_ventas_ : list FilaKey) (tolerancia_horas : Z)
  : excepcion + list (FilaKey * option FilaKey) :=
  let izquierda := sort_values fecha_k df_banco_ in
  let derecha := sort_values fecha_k df_ventas_ in
  match Timedelta_hours tolerancia_horas with
  | inl e => inl e
  | inr tolerance => merge_asof fecha_k key tolerance izquierda derecha
  end.

(** The merge by account only (line 75). *)
Definition dif_importe_merge (df_banco_ df_ventas_ : list FilaKey) (tolerancia_horas : Z)
  : excepcion + list (FilaKey * option FilaKey) :=
  let izquierda := sort_values fecha_k df_banco_ in
  let derecha := sort_values fecha_k df_ventas_ in
  match Timedelta_hours tolerancia_horas with
  | inl e => inl e
  | inr tolerance =>
      merge_asof fecha_k (idcuenta ∘ cols) tolerance izquierda derecha
  end.

(** The statements of [conciliar] after the two working copies have
    received their ['key'] column. *)
Definition conciliar_cuerpo (df_banco_ df_ventas_ : list FilaKey) (tolerancia_horas : Z)
  : excepcion + Salida :=
  (* the exact merge is computed and not used afterwards *)
  let conciliados_exactos :=
    merge_inner (λ r, (idcuenta (cols r), importe (cols r), fecha_k r))
      df_banco_ df_ventas_ in
  match conciliados_tol df_banco_ df_ventas_ tolerancia_horas with
  | inl e => inl e
  | inr tol_rows =>
    let conciliados_keys : gset string :=
      list_to_set (dropna (columna_key tol_rows)) in
    let ventas_sin :=
      cols <$> filter (λ r, negb (isin (key r) conciliados_keys) = true) df_ventas_ in
    let depositos_sin :=
      cols <$> filter (λ r, negb (isin (key r) conciliados_keys) = true) df_banco_ in
    match dif_importe_merge df_banco_ df_ventas_ tolerancia_horas with
    | inl e => inl e
    | inr dif_rows =>
      let dif := columnas_diferencia <$> dif_rows in
      let dif := filter (λ d, Some (d_importe_banco d) ≠ d_importe_venta d) dif in
      let dif := filter (λ d, is_Some (d_importe_venta d)) dif in
      inr (mkSalida (columnas_conciliado <$> tol_rows) ventas_sin depositos_sin dif)
    end
  end.

Definition conciliar (df_banco df_ventas : list Fila) (tolerancia_horas : Z)
  : excepcion + Salida :=
  conciliar_cuerpo (asignar_key df_banco) (asignar_key df_ventas) tolerancia_horas.

(** ** The call on objects in memory

    Python passes the two frames by reference.  [conciliar] takes a copy of
    each ([DataFrame.copy]) and assigns the column ['key'] on the copies, in
    place.  A memory maps addresses to frames; a frame either has the
    column ['key'] or not. *)

Inductive DataFrame :=
  | Frame (filas : list Fila)
  | FrameKey (filas : list FilaKey).

Abbreviation Memoria := (gmap nat DataFrame).

Definition filas_de (o : DataFrame) : list Fila :=
  match o with
  | Frame l => l
  | FrameKey l => cols <$> l
  end.

(** Computations on a memory; [None] stands for an access to an address
    that holds no frame, or to a column the frame does not have. *)
Definition M (A : Type) : Type := Memoria → option (A * Memoria).

Global Instance M_ret : MRet M := λ A x σ, Some (x, σ).
Global Instance M_bind : MBind M := λ A B f m σ,
  match m σ with
  | Some (x, σ') => f x σ'
  | None => None
  end.

(** [df.copy()]: a new object with the same contents. *)
Definition copy (r : nat) : M nat := λ σ,
  match σ !! r with
  | Some o => let r' := fresh (dom σ) in Some (r', <[r' := o]> σ)
  | None => None
  end.

(** [df['key'] = df['idcuenta'] + df['importe'].astype(str)], in place. *)
Definition setitem_key (r : nat) : M () := λ σ,
  match σ !! r with
  | Some o => Some ((), <[r := FrameKey (asignar_key (filas_de o))]> σ)
  | None => None
  end.

(** Read a frame together with its column ['key']. *)
Definition leer_key (r : nat) : M (list FilaKey) := λ σ,
  match σ !! r with
  | Some (FrameKey l) => Some (l, σ)
  | _ => None
  end.

Definition conciliar_mem (df_banco df_ventas : nat) (tolerancia_horas : Z)
  : M (excepcion + Salida) :=
  df_banco_ ← copy df_banco;
  df_ventas_ ← copy df_ventas;
  _ ← setitem_key df_banco_;
  _ ← setitem_key df_ventas_;
  b ← leer_key df_banco_;
  v ← leer_key df_ventas_;
  mret (conciliar_cuerpo b v tolerancia_horas).

(** ** Vocabulary of the statements *)

(** The sale side of a merged row is present. *)
Definition emparejada (c : FilaConciliada) : Prop := is_Some (importe_venta c).

(** The merged row that holds the columns of bank row [b] and, when there
    is one, those of sale row [v]. *)
Definition unir (b : Fila) (v : option Fila) : FilaConciliada :=
  mkConciliada (fecha b) (idcuenta b) (importe b) (otros b)
    (idcuenta <$> v) (importe <$> v) (otros <$> v).

(** The columns of a bank row, and the bank columns of a merged row. *)
Definition columnas_banco (b : Fila) : Z * string * Z * list string :=
  (fecha b, idcuenta b, importe b, otros b).

Definition lado_banco (c : FilaConciliada) : Z * string * Z * list string :=
  (c_fecha c, idcuenta_banco c, importe_banco c, otros_banco c).

(** Sale row [v] lies within the tolerance of bank row [b]. *)
Definition dentro (tolerancia_horas : Z) (b v : Fila) : Prop :=
  Z.abs (fecha b - fecha v) ≤ horas_ns tolerancia_horas.

(** The text holds neither a decimal point nor a minus sign. *)
Fixpoint sin_punto_ni_signo (s : string) : Prop :=
  match s with
  | EmptyString => True
  | String c s' => (c ≠ "."%char ∧ c ≠ "-"%char) ∧ sin_punto_ni_signo s'
  end.

(** ** Concrete rows used in the examples *)

(** 2024-01-01T00:00 and one hour, in nanoseconds. *)
Definition ene01 : Z := 1704067200000000000.
Definition hora : Z := 3600000000000.

Definition b_ene01 : Fila := mkFila "A" 10000 ene01 [].
Definition v_ene05 : Fila := mkFila "A" 10000 (ene01 + 96 * hora) [].

(** One bank row and one sale of the same account, half an hour apart,
    100.00 against 95.00. *)
Definition b_100 : Fila := mkFila "A" 10000 (ene01 + 10 * hora) ["d1"].
Definition v_95 : Fila := mkFila "A" 9500 (ene01 + 10 * hora + 1800000000000) [].
Definition d_100_95 : FilaDiferencia :=
  columnas_diferencia (mkFilaKey b_100 (clave b_100), Some (mkFilaKey v_95 (clave v_95))).

(** Two sales of account A, 100.00, at the very time of the bank row
    [b_ene01], told apart by another column. *)
Definition v_ene01_x : Fila := mkFila "A" 10000 ene01 ["x"].
Definition v_ene01_y : Fila := mkFila "A" 10000 ene01 ["y"].


(** A second bank row one hour after [b_ene01], and a sale at the time of
    [b_ene01]. *)
Definition b_ene01_1h : Fila := mkFila "A" 10000 (ene01 + hora) [].
Definition v_ene01 : Fila := mkFila "A" 10000 ene01 [].

(** What [conciliar] returns for the two bank rows [b_ene01_1h], [b_ene01]
    (in this order) and the sale [v_ene01], tolerance 24 hours. *)
Definition salida_dos_depositos : Salida :=
  mkSalida [unir b_ene01 (Some v_ene01); unir b_ene01_1h (Some v_ene01)] [] [] [].

(** A sale one hour after [b_ene01] and a sale one hour before it. *)
Definition v_ene01_mas1h : Fila := mkFila "A" 10000 (ene01 + hora) ["despues"].
Definition v_ene01_menos1h : Fila := mkFila "A" 10000 (ene01 - hora) ["antes"].


(** ** Cleaning: [limpiar_datos] *)

(** A row as read from a file: the three columns the cleaning looks at may
    be null.  [C] is the type of a cell of the column ['importe'] before it
    is converted (a number, or text when the column holds something that is
    not a number). *)
Record FilaCruda (C : Type) := mkCruda {
  cr_idcuenta : option string;
  cr_importe : option C;
  cr_fecha : option Z;
  cr_otros : list string
}.
Arguments mkCruda {C} _ _ _ _.
Arguments cr_idcuenta {C} _.
Arguments cr_importe {C} _.
Arguments cr_fecha {C} _.
Arguments cr_otros {C} _.

Global Instance FilaCruda_eq_dec `{EqDecision C} : EqDecision (FilaCruda C).
Proof. solve_decision. Defined.

(** [DataFrame.drop_duplicates()]: of equal rows the first is kept. *)
Fixpoint drop_duplicates `{EqDecision A} (l : list A) : list A :=
  match l with
  | [] => []
  | x :: l' => x :: filter (λ y, y ≠ x) (drop_duplicates l')
  end.

(** [dropna(subset=['idcuenta', 'importe', 'fecha'])] keeps these rows. *)
Definition completa {C} (r : FilaCruda C) : Prop :=
  is_Some (cr_idcuenta r) ∧ is_Some (cr_importe r) ∧ is_Some (cr_fecha r).

Global Instance completa_dec {C} (r : FilaCruda C) : Decision (completa r).
Proof. unfold completa. apply _. Defined.

(** A row with its three columns present, as [conciliar] takes it. *)
Definition fila_de (r : FilaCruda Numero) : option Fila :=
  id_ ← cr_idcuenta r; c ← cr_importe r; f ← cr_fecha r;
  Some (mkFila_celda id_ c f (cr_otros r)).

(** [to_numeric_round] stands for
    [pd.to_numeric(_, errors='coerce').round(2)] on one cell: the number it
    gives, or nothing when the cell is not a number.  Whether the numbers
    are integers or floats is settled by the column as a whole, and so
    part of the function given for that column. *)
Definition limpiar_datos {C} `{EqDecision C} (to_numeric_round : C → option Numero)
    (df : list (FilaCruda C)) (nombre_df : string) : list Fila :=
  let df := filter completa df in
  let df := drop_duplicates df in
  let df := (λ r, mkCruda (cr_idcuenta r) (cr_importe r ≫= to_numeric_round)
                    (cr_fecha r) (cr_otros r)) <$> df in
  omap fila_de df.

(** What the cleaning makes of one row it keeps. *)
Definition fila_limpia {C} (to_numeric_round : C → option Numero) (r : FilaCruda C)
  : option Fila :=
  fila_de (mkCruda (cr_idcuenta r) (cr_importe r ≫= to_numeric_round)
             (cr_fecha r) (cr_otros r)).

(** ** The report: [generar_reporte] *)

(** The figures the report prints.  The percentages are the exact values of
    the quotients; Python computes them in floating point and prints one
    decimal. *)
Record Reporte := mkReporte {
  total_banco : nat;
  total_ventas : nat;
  total_conciliados : nat;
  porcentaje_conciliacion : Qc;
  n_ventas_sin_depositar : nat;
  n_depositos_sin_registro : nat;
  n_dif_importe : nat;
  suma_diferencias : Z;
  resumen_por_cuenta : list (string * Qc)
}.

(** [(a / b) * 100 if b else 0] *)
Definition porcentaje (a b : nat) : Qc :=
  if decide (b = 0%nat) then 0%Qc
  else (Qc_of_Z (Z.of_nat a) / Qc_of_Z (Z.of_nat b) * Qc_of_Z 100)%Qc.

(** [Series.sum()] of an amount column; a null cell counts for nothing. *)
Definition sum_na (s : list (option Z)) : Z := foldr Z.add 0 (dropna s).

Definition generar_reporte (df_banco df_ventas : list Fila)
    (conciliados : list FilaConciliada)
    (ventas_sin_depositar depositos_sin_registro : list Fila)
    (dif_importe : list FilaDiferencia) : Reporte :=
  let total_banco := length df_banco in
  let total_ventas := length df_ventas in
  let total_conciliados := length conciliados in
  let porcentaje_conciliacion := porcentaje total_conciliados total_ventas in
  let suma_diferencias :=
    sum_na (Some ∘ d_importe_banco <$> dif_importe)
    - sum_na (d_importe_venta <$> dif_importe) in
  let resumen :=
    (λ cuenta,
       let ventas_cuenta := filter (λ v, idcuenta v = cuenta) df_ventas in
       let conciliados_cuenta :=
         filter (λ c, idcuenta_banco c = cuenta) conciliados in
       (cuenta, porcentaje (length conciliados_cuenta) (length ventas_cuenta)))
    <$> drop_duplicates (idcuenta <$> df_ventas) in
  mkReporte total_banco total_ventas total_conciliados porcentaje_conciliacion
    (length ventas_sin_depositar) (length depositos_sin_registro)
    (length dif_importe) suma_diferencias resumen.

(** * Properties *)

(** ** Sorting *)

Section OrdenLemas.
Context {A : Type} (on : A → Z).

Local Abbreviation R := (λ x y : A, on x ≤ on y).

Lemma insertar_perm x l : insertar on x l ≡ₚ x :: l.
  Proof.
    induction l as [|y l IH]; simpl; [done|].
    case_decide; [done|]. rewrite IH. apply Permutation_swap.
  Qed.

Lemma sort_values_perm l : sort_values on l ≡ₚ l.
  Proof.
    induction l as [|x l IH]; simpl; [done|].
    unfold sort_values in *. simpl. by rewrite insertar_perm, IH.
  Qed.

Lemma insertar_sorted x l :
    StronglySorted R l → StronglySorted R (insertar on x l).
  Proof.
    induction 1 as [|y l Hs IH Hall]; simpl.
    - repeat constructor.
    - case_decide as Hxy.
      + constructor; [by constructor|].
        constructor; [done|].
        eapply Forall_impl; [exact Hall|]. simpl. intros; lia.
      + constructor; [done|].
        rewrite insertar_perm. constructor; [lia|done].
  Qed.

Lemma sort_values_sorted l : StronglySorted R (sort_values on l).
  Proof.
    induction l as [|x l IH]; [constructor|].
    apply insertar_sorted, IH.
  Qed.

Lemma elem_of_sort_values x l : x ∈ sort_values on l ↔ x ∈ l.
  Proof. by rewrite sort_values_perm. Qed.

Lemma length_sort_values l : length (sort_values on l) = length l.
  Proof. by rewrite sort_values_perm. Qed.

  (** In a sorted list the last row that satisfies [P] is the greatest of
      those that do, and the first one the least. *)
Lemma last_filter_sorted (P : A → Prop) `{∀ x, Decision (P x)} l m :
    StronglySorted R l → last (filter P l) = Some m →
    ∀ x, x ∈ l → P x → on x ≤ on m.
  Proof.
    induction 1 as [|y l Hs IH Hall]; intros Hm x Hx HP.
    - by apply elem_of_nil in Hx.
    - destruct (decide (P y)) as [HPy|HPy].
      + rewrite filter_cons_True in Hm by done.
        destruct (filter P l) as [|z fl] eqn:Hfl.
        * simpl in Hm. injection Hm as <-.
          apply elem_of_cons in Hx as [->|Hx]; [lia|].
          assert (x ∈ filter P l) as Hin by by apply list_elem_of_filter.
          rewrite Hfl in Hin. by apply elem_of_nil in Hin.
        * rewrite last_cons_cons in Hm.
          apply elem_of_cons in Hx as [->|Hx]; [|by apply IH].
          assert (m ∈ l) as Hml.
          { apply last_Some_elem_of in Hm.
            rewrite <- Hfl in Hm. by apply list_elem_of_filter in Hm as [_ ?]. }
          by apply (proj1 (Forall_forall _ _) Hall).
      + rewrite filter_cons_False in Hm by done.
        apply elem_of_cons in Hx as [->|Hx]; [done|by apply IH].
  Qed.

Lemma head_filter_sorted (P : A → Prop) `{∀ x, Decision (P x)} l m :
    StronglySorted R l → head (filter P l) = Some m →
    ∀ x, x ∈ l → P x → on m ≤ on x.
  Proof.
    induction 1 as [|y l Hs IH Hall]; intros Hm x Hx HP.
    - by apply elem_of_nil in Hx.
    - destruct (decide (P y)) as [HPy|HPy].
      + rewrite filter_cons_True in Hm by done. simpl in Hm. injection Hm as <-.
        apply elem_of_cons in Hx as [->|Hx]; [lia|].
        by apply (proj1 (Forall_forall _ _) Hall).
      + rewrite filter_cons_False in Hm by done.
        apply elem_of_cons in Hx as [->|Hx]; [done|by apply IH].
  Qed.
End OrdenLemas.

(** ** The as-of search *)

Section MergeAsofLemas.
Context {A K : Type} `{EqDecision K} (on : A → Z) (by_ : A → K).

Local Abbreviation R := (λ x y : A, on x ≤ on y).

Lemma asof_backward_Some tol right l r :
    asof_backward on by_ tol right l = Some r →
    r ∈ right ∧ by_ r = by_ l ∧ on r ≤ on l ∧ on l - on r ≤ tol.
  Proof.
    unfold asof_backward.
    destruct (last _) as [m|] eqn:Hm; [|done].
    case_decide; [done|]. intros [= ->].
    apply last_Some_elem_of, list_elem_of_filter in Hm as [[??] ?].
    repeat split; [done..|lia].
  Qed.

Lemma asof_forward_Some tol right l r :
    asof_forward on by_ tol right l = Some r →
    r ∈ right ∧ by_ r = by_ l ∧ on l ≤ on r ∧ on r - on l ≤ tol.
  Proof.
    unfold asof_forward.
    destruct (head _) as [m|] eqn:Hm; [|done].
    case_decide; [done|]. intros [= ->].
    apply head_Some_elem_of, list_elem_of_filter in Hm as [[??] ?].
    repeat split; [done..|lia].
  Qed.

Lemma asof_backward_cases tol right l x :
    StronglySorted R right → x ∈ right → by_ x = by_ l → on x ≤ on l →
    (∃ m, asof_backward on by_ tol right l = Some m ∧ on x ≤ on m)
    ∨ (asof_backward on by_ tol right l = None ∧ on l - on x > tol).
  Proof.
    intros Hs Hx Hby Hle. unfold asof_backward.
    destruct (last _) as [m|] eqn:Hm.
    - assert (on x ≤ on m)
        by (by apply (last_filter_sorted on _ right m Hs Hm x Hx)).
      pose proof Hm as Hm'.
      apply last_Some_elem_of, list_elem_of_filter in Hm' as [[??] ?].
      case_decide; [right; split; [done|lia]|left; eauto].
    - apply last_None in Hm.
      assert (x ∈ filter (λ r, by_ r = by_ l ∧ on r ≤ on l) right) as Hin
        by by apply list_elem_of_filter.
      rewrite Hm in Hin. by apply elem_of_nil in Hin.
  Qed.

Lemma asof_forward_cases tol right l x :
    StronglySorted R right → x ∈ right → by_ x = by_ l → on l ≤ on x →
    (∃ m, asof_forward on by_ tol right l = Some m ∧ on m ≤ on x)
    ∨ (asof_forward on by_ tol right l = None ∧ on x - on l > tol).
  Proof.
    intros Hs Hx Hby Hle. unfold asof_forward.
    destruct (head _) as [m|] eqn:Hm.
    - assert (on m ≤ on x)
        by (by apply (head_filter_sorted on _ right m Hs Hm x Hx)).
      pose proof Hm as Hm'.
      apply head_Some_elem_of, list_elem_of_filter in Hm' as [[??] ?].
      case_decide; [right; split; [done|lia]|left; eauto].
    - apply head_None in Hm.
      assert (x ∈ filter (λ r, by_ r = by_ l ∧ on l ≤ on r) right) as Hin
        by by apply list_elem_of_filter.
      rewrite Hm in Hin. by apply elem_of_nil in Hin.
  Qed.

  (** A row that was found belongs to the right frame, to the same group,
      and lies within the tolerance. *)
Lemma asof_nearest_Some tol right l r :
    asof_nearest on by_ tol right l = Some r →
    r ∈ right ∧ by_ r = by_ l ∧ Z.abs (on l - on r) ≤ tol.
  Proof.
    unfold asof_nearest.
    destruct (asof_backward _ _ _ _ _) as [b|] eqn:Hb;
      destruct (asof_forward _ _ _ _ _) as [f|] eqn:Hf;
      try apply asof_backward_Some in Hb as (?&?&?&?);
      try apply asof_forward_Some in Hf as (?&?&?&?);
      try case_decide; intros [= <-]; repeat split; try done; lia.
  Qed.

  (** Nothing is found only when no row of the group is within the
      tolerance. *)
Lemma asof_nearest_None tol right l x :
    StronglySorted R right →
    asof_nearest on by_ tol right l = None →
    x ∈ right → by_ x = by_ l → tol < Z.abs (on l - on x).
  Proof.
    intros Hs Hn Hx Hby. unfold asof_nearest in Hn.
    destruct (decide (on x ≤ on l)) as [Hle|Hle].
    - destruct (asof_backward_cases tol right l x Hs Hx Hby Hle)
        as [(m & Hm & ?)|[Hm ?]]; rewrite Hm in Hn; [|lia].
      destruct (asof_forward _ _ _ _ _); [case_decide|]; done.
    - destruct (asof_forward_cases tol right l x Hs Hx Hby ltac:(lia))
        as [(m & Hm & ?)|[Hm ?]]; rewrite Hm in Hn; [|lia].
      destruct (asof_backward _ _ _ _ _); [case_decide|]; done.
  Qed.

  (** The row that was found is a nearest one of its group. *)
Lemma asof_nearest_closest tol right l r x :
    StronglySorted R right →
    asof_nearest on by_ tol right l = Some r →
    x ∈ right → by_ x = by_ l →
    Z.abs (on l - on r) ≤ Z.abs (on l - on x).
  Proof.
    intros Hs Hn Hx Hby. unfold asof_nearest in Hn.
    destruct (decide (on x ≤ on l)) as [Hle|Hle].
    - destruct (asof_backward_cases tol right l x Hs Hx Hby Hle)
        as [(m & Hm & ?)|[Hm ?]]; rewrite Hm in Hn.
      + apply asof_backward_Some in Hm as (?&?&?&?).
        destruct (asof_forward _ _ _ _ _) as [f|] eqn:Hf;
          [apply asof_forward_Some in Hf as (?&?&?&?); case_decide|];
          injection Hn as <-; lia.
      + destruct (asof_forward _ _ _ _ _) as [f|] eqn:Hf; [|done].
        apply asof_forward_Some in Hf as (?&?&?&?). injection Hn as <-. lia.
    - destruct (asof_forward_cases tol right l x Hs Hx Hby ltac:(lia))
        as [(m & Hm & ?)|[Hm ?]]; rewrite Hm in Hn.
      + apply asof_forward_Some in Hm as (?&?&?&?).
        destruct (asof_backward _ _ _ _ _) as [b|] eqn:Hb;
          [apply asof_backward_Some in Hb as (?&?&?&?); case_decide|];
          injection Hn as <-; lia.
      + destruct (asof_backward _ _ _ _ _) as [b|] eqn:Hb; [|done].
        apply asof_backward_Some in Hb as (?&?&?&?). injection Hn as <-. lia.
  Qed.

Lemma asof_nearest_is_Some tol right l x :
    StronglySorted R right → x ∈ right → by_ x = by_ l →
    Z.abs (on l - on x) ≤ tol →
    is_Some (asof_nearest on by_ tol right l).
  Proof.
    intros Hs Hx Hby Hle.
    destruct (asof_nearest _ _ _ _ _) eqn:Hn; [done|].
    pose proof (asof_nearest_None tol right l x Hs Hn Hx Hby). lia.
  Qed.

Lemma merge_asof_inr tol left right :
    0 ≤ tol →
    merge_asof on by_ tol left right
    = inr (map (λ l, (l, asof_nearest on by_ tol right l)) left).
  Proof. intros. unfold merge_asof. case_decide; [lia|done]. Qed.

  (** What a successful merge of two frames sorted by the call holds. *)
Lemma merge_asof_spec tol left right rows :
    merge_asof on by_ tol (sort_values on left) (sort_values on right) = inr rows →
    0 ≤ tol
    ∧ rows.*1 = sort_values on left
    ∧ (∀ l, l ∈ left → ∃ o, (l, o) ∈ rows)
    ∧ (∀ l o, (l, o) ∈ rows →
         l ∈ left ∧
         match o with
         | Some r =>
             r ∈ right ∧ by_ r = by_ l ∧ Z.abs (on l - on r) ≤ tol
             ∧ ∀ x, x ∈ right → by_ x = by_ l →
                 Z.abs (on l - on r) ≤ Z.abs (on l - on x)
         | None => ∀ x, x ∈ right → by_ x = by_ l → tol < Z.abs (on l - on x)
         end).
  Proof.
    unfold merge_asof. case_decide; [done|]. intros [= <-].
    pose proof (sort_values_sorted on right) as Hs.
    split; [lia|]. split; [|split].
    - rewrite <- list_fmap_compose. apply list_fmap_id.
    - intros l Hl. eexists. apply list_elem_of_fmap.
      exists l. split; [done|]. by apply elem_of_sort_values.
    - intros l o (l' & [= -> ->] & Hl)%list_elem_of_fmap.
      apply elem_of_sort_values in Hl. split; [done|].
      destruct (asof_nearest _ _ _ _ _) as [r|] eqn:Hn.
      + pose proof Hn as (Hr & ? & ?)%asof_nearest_Some.
        apply elem_of_sort_values in Hr. repeat split; [done..|].
        intros x Hx ?. eapply asof_nearest_closest; [done..| |done].
        by apply elem_of_sort_values.
      + intros x Hx ?. eapply asof_nearest_None; [done..| |done].
        by apply elem_of_sort_values.
  Qed.

Lemma merge_asof_inl tol left right :
    tol < 0 → ∃ e, merge_asof on by_ tol left right = inl e.
  Proof. intros. unfold merge_asof. case_decide; [eauto|lia]. Qed.
End MergeAsofLemas.

(** ** The statements of [conciliar] *)

Lemma horas_ns_nonneg h : 0 ≤ h ↔ 0 ≤ horas_ns h.
Proof. unfold horas_ns. lia. Qed.

(** The tolerances [pd.Timedelta] accepts. *)
Lemma Timedelta_hours_inr h :
  -2562048 < h < 2562048 ↔ Timedelta_hours h = inr (horas_ns h).
Proof.
  unfold Timedelta_hours, horas_ns. case_decide; split; try done; lia.
Qed.

Lemma Timedelta_hours_inl h :
  ¬ (-2562048 < h < 2562048) ↔ Timedelta_hours h = inl OutOfBoundsTimedelta.
Proof.
  unfold Timedelta_hours, horas_ns. case_decide; split; try done; lia.
Qed.

Lemma Timedelta_hours_inr_inv h t :
  Timedelta_hours h = inr t → -2562048 < h < 2562048 ∧ t = horas_ns h.
Proof.
  unfold Timedelta_hours, horas_ns. case_decide; [|done].
  intros [= <-]. split; [lia|done].
Qed.

Lemma elem_of_asignar_key r df :
  r ∈ asignar_key df ↔ ∃ f, r = mkFilaKey f (clave f) ∧ f ∈ df.
Proof. apply list_elem_of_fmap. Qed.

Lemma cols_asignar_key df : cols <$> asignar_key df = df.
Proof.
  unfold asignar_key. rewrite <- list_fmap_compose. apply list_fmap_id.
Qed.


Lemma lado_banco_unir b v : lado_banco (unir b v) = columnas_banco b.
Proof. reflexivity. Qed.

Lemma emparejada_unir b v : emparejada (unir b v) ↔ is_Some v.
Proof. destruct v; unfold emparejada; simpl; split; intros [??]; eauto; done. Qed.

(** The set collected on line 68 holds the key of every bank row. *)
Lemma dropna_columna_key rows : dropna (columna_key rows) = key <$> rows.*1.
Proof. induction rows as [|[??] ? IH]; simpl; [done|]. by f_equal. Qed.

(** Either merge returns rows exactly when the tolerance is one
    [pd.Timedelta] accepts and [merge_asof] does. *)
Lemma conciliados_tol_merge bk vk h rows :
  conciliados_tol bk vk h = inr rows ↔
  -2562048 < h < 2562048
  ∧ merge_asof fecha_k key (horas_ns h)
      (sort_values fecha_k bk) (sort_values fecha_k vk) = inr rows.
Proof.
  unfold conciliados_tol. cbv zeta.
  destruct (Timedelta_hours h) as [e|t] eqn:Ht.
  - split; [done|]. intros [Hh%Timedelta_hours_inr _]. congruence.
  - apply Timedelta_hours_inr_inv in Ht as [Hh ->]. tauto.
Qed.

Lemma dif_importe_merge_merge bk vk h rows :
  dif_importe_merge bk vk h = inr rows ↔
  -2562048 < h < 2562048
  ∧ merge_asof fecha_k (idcuenta ∘ cols) (horas_ns h)
      (sort_values fecha_k bk) (sort_values fecha_k vk) = inr rows.
Proof.
  unfold dif_importe_merge. cbv zeta.
  destruct (Timedelta_hours h) as [e|t] eqn:Ht.
  - split; [done|]. intros [Hh%Timedelta_hours_inr _]. congruence.
  - apply Timedelta_hours_inr_inv in Ht as [Hh ->]. tauto.
Qed.

Lemma conciliados_keys_banco df_banco df_ventas h rows k :
  conciliados_tol (asignar_key df_banco) (asignar_key df_ventas) h = inr rows →
  k ∈ (list_to_set (dropna (columna_key rows)) : gset string)
  ↔ ∃ b, b ∈ df_banco ∧ clave b = k.
Proof.
  intros [_ (_ & Hfst & _)%merge_asof_spec]%conciliados_tol_merge.
  rewrite dropna_columna_key, Hfst, elem_of_list_to_set, list_elem_of_fmap.
  split.
  - intros (r & -> & (f & -> & ?)%elem_of_sort_values%elem_of_asignar_key). eauto.
  - intros (b & ? & <-). exists (mkFilaKey b (clave b)). split; [done|].
    apply elem_of_sort_values, elem_of_asignar_key. eauto.
Qed.

Lemma filter_asignar_key (P : string → Prop)
    {H1 : ∀ r : FilaKey, Decision (P (key r))}
    {H2 : ∀ f : Fila, Decision (P (clave f))} df :
  cols <$> filter (λ r, P (key r)) (asignar_key df) = filter (λ f, P (clave f)) df.
Proof.
  induction df as [|f df IH]; [done|].
  change (asignar_key (f :: df)) with (mkFilaKey f (clave f) :: asignar_key df).
  rewrite !filter_cons.
  do 2 case_decide; try done.
  rewrite fmap_cons. by rewrite IH.
Qed.

Lemma filter_ninguno {A} (P : A → Prop) `{∀ x, Decision (P x)} (l : list A) :
  (∀ x, x ∈ l → ¬ P x) → filter P l = [].
Proof.
  induction l as [|x l IH]; intros Hl; [done|].
  rewrite filter_cons_False by (apply Hl; left).
  apply IH. intros y ?. apply Hl. by right.
Qed.

Lemma isin_false k (s : gset string) : negb (isin k s) = true ↔ k ∉ s.
Proof.
  unfold isin. rewrite negb_true_iff, bool_decide_eq_false. done.
Qed.

(** With a tolerance of 0 to 2562047 hours both merges succeed, and the
    four frames are built from them as the code does. *)
Lemma conciliar_inr df_banco df_ventas h :
  0 ≤ h < 2562048 →
  ∃ rows drows,
    conciliados_tol (asignar_key df_banco) (asignar_key df_ventas) h = inr rows
    ∧ dif_importe_merge (asignar_key df_banco) (asignar_key df_ventas) h = inr drows
    ∧ conciliar df_banco df_ventas h = inr (mkSalida
        (columnas_conciliado <$> rows)
        (filter (λ v, clave v ∉ clave <$> df_banco) df_ventas)
        []
        (filter (λ d, is_Some (d_importe_venta d))
           (filter (λ d, Some (d_importe_banco d) ≠ d_importe_venta d)
              (columnas_diferencia <$> drows)))).
Proof.
  intros Hh.
  assert (0 ≤ horas_ns h) as Hns by (unfold horas_ns; lia).
  assert (-2562048 < h < 2562048) as Hh' by lia.
  pose proof (proj2 (conciliados_tol_merge (asignar_key df_banco)
    (asignar_key df_ventas) h _)
    (conj Hh' (merge_asof_inr fecha_k key _ _ _ Hns))) as Hrows.
  pose proof (proj2 (dif_importe_merge_merge (asignar_key df_banco)
    (asignar_key df_ventas) h _)
    (conj Hh' (merge_asof_inr fecha_k (idcuenta ∘ cols) _ _ _ Hns))) as Hdrows.
  eexists _, _. split; [exact Hrows|]. split; [exact Hdrows|].
  unfold conciliar, conciliar_cuerpo.
  rewrite Hrows, Hdrows. cbv zeta.
  set (S := list_to_set _ : gset string).
  assert (∀ k, k ∈ S ↔ k ∈ clave <$> df_banco) as HS.
  { intros k. unfold S.
    rewrite (conciliados_keys_banco _ _ _ _ _ Hrows), list_elem_of_fmap.
    split; intros (b & ? & ?); eauto. }
  do 2 f_equal.
  - rewrite (filter_asignar_key (λ k, negb (isin k S) = true)).
    apply list_filter_iff. intros v. by rewrite isin_false, HS.
  - rewrite (filter_asignar_key (λ k, negb (isin k S) = true)).
    apply filter_ninguno. intros b Hb. rewrite isin_false, HS.
    intros []. by apply list_elem_of_fmap_2.
Qed.

(** Outside that range [conciliar] stops at the first merge: on the
    construction of the tolerance, or on a negative one. *)
Lemma conciliar_inl df_banco df_ventas h :
  ¬ (0 ≤ h < 2562048) →
  conciliar df_banco df_ventas h
  = inl (if decide (-2562048 < h < 0) then MergeError else OutOfBoundsTimedelta).
Proof.
  intros Hh. unfold conciliar, conciliar_cuerpo, conciliados_tol. cbv zeta.
  destruct (decide (-2562048 < h < 2562048)) as [Hin|Hout].
  - rewrite (proj1 (Timedelta_hours_inr h) Hin).
    unfold merge_asof. rewrite decide_True by (unfold horas_ns; lia).
    by rewrite decide_True by lia.
  - rewrite (proj1 (Timedelta_hours_inl h) Hout).
    by rewrite decide_False by lia.
Qed.

Lemma conciliar_inr_nonneg df_banco df_ventas h r :
  conciliar df_banco df_ventas h = inr r → 0 ≤ h < 2562048.
Proof.
  intros Hr. destruct (decide (0 ≤ h < 2562048)) as [|Hneg]; [done|].
  rewrite (conciliar_inl df_banco df_ventas h Hneg) in Hr. done.
Qed.

(** The rows of either merge, read on the input rows.  [byf] is the
    grouping column as a function of an input row. *)
Section Filas.
Context {K : Type} `{EqDecision K} (by_ : FilaKey → K) (byf : Fila → K).
Hypothesis Hby : ∀ f, by_ (mkFilaKey f (clave f)) = byf f.

Lemma merge_filas_spec df_banco df_ventas h rows :
    merge_asof fecha_k by_ (horas_ns h)
      (sort_values fecha_k (asignar_key df_banco))
      (sort_values fecha_k (asignar_key df_ventas)) = inr rows →
    0 ≤ h
    ∧ rows.*1 = sort_values fecha_k (asignar_key df_banco)
    ∧ (∀ b, b ∈ df_banco → ∃ o, (mkFilaKey b (clave b), o) ∈ rows)
    ∧ (∀ bk o, (bk, o) ∈ rows →
         ∃ b, b ∈ df_banco ∧ bk = mkFilaKey b (clave b) ∧
         match o with
         | Some vk =>
             ∃ v, v ∈ df_ventas ∧ vk = mkFilaKey v (clave v)
               ∧ byf v = byf b ∧ dentro h b v
               ∧ ∀ x, x ∈ df_ventas → byf x = byf b →
                   Z.abs (fecha b - fecha v) ≤ Z.abs (fecha b - fecha x)
         | None => ∀ x, x ∈ df_ventas → byf x = byf b → ¬ dentro h b x
         end).
  Proof.
    intros (Htol & Hfst & Hall & Hrows)%merge_asof_spec.
    split; [unfold horas_ns in Htol; lia|]. split; [done|]. split.
    - intros b Hb. apply Hall, elem_of_asignar_key. eauto.
    - intros bk o [Hbk Ho]%Hrows.
      apply elem_of_asignar_key in Hbk as (b & -> & Hb).
      exists b. split; [done|]. split; [done|].
      destruct o as [vk|].
      + destruct Ho as (Hvk & Hk & Hd & Hnear).
        apply elem_of_asignar_key in Hvk as (v & -> & Hv).
        exists v. rewrite !Hby in Hk. repeat split; [done..|].
        intros x Hx Hxb.
        apply (Hnear (mkFilaKey x (clave x))).
        * apply elem_of_asignar_key. eauto.
        * by rewrite !Hby.
      + intros x Hx Hxb Hd.
        specialize (Ho (mkFilaKey x (clave x))).
        unfold dentro in Hd. unfold fecha_k in Ho. simpl in Ho.
        rewrite !Hby in Ho.
        assert (mkFilaKey x (clave x) ∈ asignar_key df_ventas) as Hin
          by (apply elem_of_asignar_key; eauto).
        specialize (Ho Hin Hxb). lia.
  Qed.
End Filas.

Lemma conciliados_tol_spec df_banco df_ventas h rows :
  conciliados_tol (asignar_key df_banco) (asignar_key df_ventas) h = inr rows →
  0 ≤ h
  ∧ rows.*1 = sort_values fecha_k (asignar_key df_banco)
  ∧ (∀ b, b ∈ df_banco → ∃ o, (mkFilaKey b (clave b), o) ∈ rows)
  ∧ (∀ bk o, (bk, o) ∈ rows →
       ∃ b, b ∈ df_banco ∧ bk = mkFilaKey b (clave b) ∧
       match o with
       | Some vk =>
           ∃ v, v ∈ df_ventas ∧ vk = mkFilaKey v (clave v)
             ∧ clave v = clave b ∧ dentro h b v
             ∧ ∀ x, x ∈ df_ventas → clave x = clave b →
                 Z.abs (fecha b - fecha v) ≤ Z.abs (fecha b - fecha x)
       | None => ∀ x, x ∈ df_ventas → clave x = clave b → ¬ dentro h b x
       end).
Proof.
  intros [_ Hm]%conciliados_tol_merge.
  by apply (merge_filas_spec key clave).
Qed.

Lemma dif_importe_merge_spec df_banco df_ventas h rows :
  dif_importe_merge (asignar_key df_banco) (asignar_key df_ventas) h = inr rows →
  0 ≤ h
  ∧ rows.*1 = sort_values fecha_k (asignar_key df_banco)
  ∧ (∀ b, b ∈ df_banco → ∃ o, (mkFilaKey b (clave b), o) ∈ rows)
  ∧ (∀ bk o, (bk, o) ∈ rows →
       ∃ b, b ∈ df_banco ∧ bk = mkFilaKey b (clave b) ∧
       match o with
       | Some vk =>
           ∃ v, v ∈ df_ventas ∧ vk = mkFilaKey v (clave v)
             ∧ idcuenta v = idcuenta b ∧ dentro h b v
             ∧ ∀ x, x ∈ df_ventas → idcuenta x = idcuenta b →
                 Z.abs (fecha b - fecha v) ≤ Z.abs (fecha b - fecha x)
       | None => ∀ x, x ∈ df_ventas → idcuenta x = idcuenta b → ¬ dentro h b x
       end).
Proof.
  intros [_ Hm]%dif_importe_merge_merge.
  by apply (merge_filas_spec (idcuenta ∘ cols) idcuenta).
Qed.

Lemma lado_banco_columnas rows :
  lado_banco <$> (columnas_conciliado <$> rows)
  = columnas_banco <$> (cols <$> rows.*1).
Proof.
  rewrite <- !list_fmap_compose. apply list_fmap_ext.
  intros _ [[[] ?] ?] _. reflexivity.
Qed.

(** The rows of the first frame, read on the input rows. *)
Lemma elem_of_conciliados df_banco df_ventas h rows c :
  conciliados_tol (asignar_key df_banco) (asignar_key df_ventas) h = inr rows →
  c ∈ columnas_conciliado <$> rows ↔
  ∃ b v, (mkFilaKey b (clave b), (λ f, mkFilaKey f (clave f)) <$> v) ∈ rows
         ∧ c = unir b v.
Proof.
  intros (_ & _ & _ & Hrows)%conciliados_tol_spec.
  rewrite list_elem_of_fmap. split.
  - intros ([bk o] & -> & Hin).
    destruct (Hrows _ _ Hin) as (b & _ & -> & Ho).
    destruct o as [vk|].
    + destruct Ho as (v & _ & -> & _). by exists b, (Some v).
    + by exists b, None.
  - intros (b & v & Hin & ->). eexists. split; [|exact Hin]. by destruct v.
Qed.

(** ** Residuals *)

(** Whatever the pairing, the frame of deposits without a record is empty
    and a sale is reported as not deposited exactly when no bank row has
    its key. *)
Lemma residuos_por_clave df_banco df_ventas h r :
  conciliar df_banco df_ventas h = inr r →
  depositos_sin_registro r = []
  ∧ ventas_sin_depositar r = filter (λ v, clave v ∉ clave <$> df_banco) df_ventas.
Proof.
  intros Hr. pose proof (conciliar_inr_nonneg _ _ _ _ Hr) as Hh.
  destruct (conciliar_inr df_banco df_ventas h Hh) as (rows & drows & _ & _ & Hc).
  rewrite Hc in Hr. by injection Hr as <-.
Qed.

(** C1 (residual derivation), evaluated on the example of the
    specification: one bank row of account A, 100.00, on January 1st and
    one sale of account A, 100.00, on January 5th, tolerance 24 hours.
    The merge finds no sale for the bank row, yet the key of the bank row
    is collected, so both residual frames come out empty. *)
Theorem residuos_ene05 :
  conciliar [b_ene01] [v_ene05] 24
  = inr (mkSalida [unir b_ene01 None] [] [] []).
Proof. vm_compute. reflexivity. Qed.

(** C2 (partition), on the same input: the sale is neither paired in the
    first frame nor listed as not deposited, and the bank row is neither
    paired nor listed as a deposit without record. *)
Theorem particion_ene05 :
  ∃ r, conciliar [b_ene01] [v_ene05] 24 = inr r
    ∧ (∀ c, c ∈ conciliados r → ¬ emparejada c)
    ∧ (v_ene05 ∉ ventas_sin_depositar r)
    ∧ (b_ene01 ∉ depositos_sin_registro r).
Proof.
  eexists. split; [vm_compute; reflexivity|]. simpl. split; [|split].
  - intros c ->%list_elem_of_singleton Hc. by destruct Hc.
  - apply not_elem_of_nil.
  - apply not_elem_of_nil.
Qed.

(** ** The key *)

(** C6 (key soundness), evaluated: account "A1" with amount 2.00 and
    account "A" with amount 12.00 receive the same key "A12.0", and the
    merge pairs a bank row of the one with a sale of the other. *)
Theorem clave_colision :
  clave (mkFila "A1" 200 ene01 []) = "A12.0"
  ∧ clave (mkFila "A" 1200 ene01 []) = "A12.0"
  ∧ ∃ r, conciliar [mkFila "A" 1200 ene01 []] [mkFila "A1" 200 ene01 []] 24 = inr r
      ∧ conciliados r
        = [unir (mkFila "A" 1200 ene01 []) (Some (mkFila "A1" 200 ene01 []))].
Proof.
  split; [by vm_compute|]. split; [by vm_compute|].
  eexists. split; [by vm_compute|]. by vm_compute.
Qed.

(** Rows with the same account and the same amount cell (the same number
    held the same way) receive the same key. *)
Lemma clave_misma b v :
  idcuenta b = idcuenta v → celda_importe b = celda_importe v →
  clave b = clave v.
Proof. unfold clave. by intros -> ->. Qed.

(** An [int64] amount and the equal [float64] amount print differently,
    so a bank row and a sale that agree on account, amount and timestamp
    are not paired when one column holds integers and the other floats. *)
Lemma clave_entero_flotante :
  importe (mkFila_celda "A" (Int64 100) ene01 []) = importe (mkFila "A" 10000 ene01 [])
  ∧ clave (mkFila_celda "A" (Int64 100) ene01 []) = "A100"
  ∧ clave (mkFila "A" 10000 ene01 []) = "A100.0"
  ∧ conciliar [mkFila_celda "A" (Int64 100) ene01 []] [mkFila "A" 10000 ene01 []] 24
    = inr (mkSalida [unir (mkFila_celda "A" (Int64 100) ene01 []) None]
             [mkFila "A" 10000 ene01 []] [] []).
Proof. repeat split; vm_compute; reflexivity. Qed.

(** ** Totality *)

(** C10 as stated fails: a tolerance of 2562048 hours does not fit a
    [pd.Timedelta], and [conciliar] raises on it, also on empty frames; a
    negative tolerance is refused by the merge. *)
Lemma conciliar_total_contraejemplo :
  conciliar [] [] 2562048 = inl OutOfBoundsTimedelta
  ∧ conciliar [] [] (-1) = inl MergeError
  ∧ ¬ (∀ df_banco df_ventas h,
         0 ≤ h →
         (∃ r, conciliar df_banco df_ventas h = inr r)
         ∧ conciliar [] [] h = inr (mkSalida [] [] [] [])).
Proof.
  assert (conciliar [] [] 2562048 = inl OutOfBoundsTimedelta) as He
    by (vm_compute; reflexivity).
  split; [exact He|]. split; [vm_compute; reflexivity|]. intros Hclaim.
  destruct (Hclaim [] [] 2562048) as [_ Hr]; [lia|].
  rewrite He in Hr. discriminate Hr.
Qed.

(** C10, amended: with a tolerance of 0 to 2562047 hours, the tolerances
    that are not negative and that [pd.Timedelta] can hold, [conciliar]
    raises nothing and returns its four frames; on two empty inputs the
    four of them are empty. *)
Theorem conciliar_total df_banco df_ventas h :
  0 ≤ h < 2562048 →
  (∃ r, conciliar df_banco df_ventas h = inr r)
  ∧ conciliar [] [] h = inr (mkSalida [] [] [] []).
Proof.
  intros Hh. split.
  - destruct (conciliar_inr df_banco df_ventas h Hh) as (? & ? & _ & _ & ->). eauto.
  - destruct (conciliar_inr [] [] h Hh) as (rows & drows & Hr & Hd & ->).
    apply conciliados_tol_spec in Hr as (_ & Hr & _).
    apply dif_importe_merge_spec in Hd as (_ & Hd & _).
    apply fmap_nil_inv in Hr as ->. apply fmap_nil_inv in Hd as ->. done.
Qed.

Lemma conciliar_total_witness :
  0 ≤ 24 < 2562048
  ∧ (∃ r, conciliar [b_ene01] [v_ene05] 24 = inr r)
  ∧ conciliar [] [] 24 = inr (mkSalida [] [] [] []).
Proof. split; [lia|apply (conciliar_total [b_ene01] [v_ene05] 24); lia]. Defined.

(** ** The first frame *)

(** C8: whenever [conciliar] returns, the first frame has one row per
    bank row, carrying the columns of the bank rows in some order; a row
    without a sale has every sale column null, and a bank row with no sale
    of its key within the tolerance is such a row. *)
Theorem conciliados_una_fila_por_deposito df_banco df_ventas h r :
  conciliar df_banco df_ventas h = inr r →
  length (conciliados r) = length df_banco
  ∧ lado_banco <$> conciliados r ≡ₚ columnas_banco <$> df_banco
  ∧ (∀ c, c ∈ conciliados r → ¬ emparejada c →
       idcuenta_venta c = None ∧ importe_venta c = None ∧ otros_venta c = None)
  ∧ (∀ b, b ∈ df_banco →
       (∀ v, v ∈ df_ventas → clave v = clave b → ¬ dentro h b v) →
       unir b None ∈ conciliados r).
Proof.
  intros Hr. pose proof (conciliar_inr_nonneg _ _ _ _ Hr) as Hh.
  destruct (conciliar_inr df_banco df_ventas h Hh) as (rows & drows & Hrows & _ & Hc).
  rewrite Hc in Hr. injection Hr as <-. simpl.
  pose proof (conciliados_tol_spec _ _ _ _ Hrows) as (_ & Hfst & Hall & Hspec).
  split; [|split; [|split]].
  - rewrite length_fmap, <- (length_fmap fst), Hfst, length_sort_values.
    unfold asignar_key. apply length_fmap.
  - by rewrite lado_banco_columnas, Hfst, sort_values_perm, cols_asignar_key.
  - intros c ([bk [vk|]] & -> & _)%list_elem_of_fmap Hne; [|by repeat split].
    destruct Hne. unfold emparejada. simpl. eauto.
  - intros b Hb Hnone.
    destruct (Hall b Hb) as [o Hin].
    destruct (Hspec _ _ Hin) as (b' & _ & [= <-] & Ho).
    destruct o as [vk|].
    + destruct Ho as (v & Hv & _ & Hk & Hd & _). by destruct (Hnone v).
    + apply list_elem_of_fmap. exists (mkFilaKey b (clave b), None). by split.
Qed.

Lemma conciliados_una_fila_por_deposito_witness :
  conciliar [b_ene01; b_ene01_1h] [v_ene05] 24
  = inr (mkSalida [unir b_ene01 None; unir b_ene01_1h None] [] [] [])
  ∧ length (conciliados (mkSalida [unir b_ene01 None; unir b_ene01_1h None] [] [] []))
    = length [b_ene01; b_ene01_1h]
  ∧ lado_banco
      <$> conciliados (mkSalida [unir b_ene01 None; unir b_ene01_1h None] [] [] [])
    ≡ₚ columnas_banco <$> [b_ene01; b_ene01_1h]
  ∧ (∀ c, c ∈ conciliados
              (mkSalida [unir b_ene01 None; unir b_ene01_1h None] [] [] []) →
       ¬ emparejada c →
       idcuenta_venta c = None ∧ importe_venta c = None ∧ otros_venta c = None)
  ∧ (∀ b, b ∈ [b_ene01; b_ene01_1h] →
       (∀ v, v ∈ [v_ene05] → clave v = clave b → ¬ dentro 24 b v) →
       unir b None
       ∈ conciliados (mkSalida [unir b_ene01 None; unir b_ene01_1h None] [] [] [])).
Proof.
  assert (conciliar [b_ene01; b_ene01_1h] [v_ene05] 24
          = inr (mkSalida [unir b_ene01 None; unir b_ene01_1h None] [] [] []))
    as Hr by (vm_compute; reflexivity).
  split; [exact Hr|].
  exact (conciliados_una_fila_por_deposito [b_ene01; b_ene01_1h] [v_ene05] 24 _ Hr).
Defined.

(** ** Amount differences *)

(** C5: every row of the last frame has a sale amount, different from the
    bank amount, and comes from a bank row and a sale of the same account
    within the tolerance. *)
Theorem dif_importe_filtrado df_banco df_ventas h r d :
  conciliar df_banco df_ventas h = inr r →
  d ∈ dif_importe r →
  (∃ iv, d_importe_venta d = Some iv ∧ iv ≠ d_importe_banco d)
  ∧ ∃ b v, b ∈ df_banco ∧ v ∈ df_ventas
      ∧ d = columnas_diferencia
              (mkFilaKey b (clave b), Some (mkFilaKey v (clave v)))
      ∧ idcuenta v = idcuenta b ∧ dentro h b v.
Proof.
  intros Hr Hd. pose proof (conciliar_inr_nonneg _ _ _ _ Hr) as Hh.
  destruct (conciliar_inr df_banco df_ventas h Hh) as (rows & drows & _ & Hdr & Hc).
  rewrite Hc in Hr. injection Hr as <-. simpl in Hd.
  apply list_elem_of_filter in Hd as [Hsome Hd].
  apply list_elem_of_filter in Hd as [Hne Hd].
  apply list_elem_of_fmap in Hd as ([bk o] & -> & Hin).
  apply dif_importe_merge_spec in Hdr as (_ & _ & _ & Hrows).
  destruct (Hrows _ _ Hin) as (b & Hb & -> & Ho).
  destruct o as [vk|]; [|by destruct Hsome].
  destruct Ho as (v & Hv & -> & Hid & Hdentro & _).
  split.
  - exists (importe v). split; [done|]. simpl in *.
    intros Heq. apply Hne. by rewrite Heq.
  - exists b, v. done.
Qed.

Lemma dif_importe_filtrado_witness :
  conciliar [b_100] [v_95] 24 = inr (mkSalida [unir b_100 None] [v_95] [] [d_100_95])
  ∧ d_100_95 ∈ dif_importe (mkSalida [unir b_100 None] [v_95] [] [d_100_95])
  ∧ (∃ iv, d_importe_venta d_100_95 = Some iv ∧ iv ≠ d_importe_banco d_100_95)
  ∧ ∃ b v, b ∈ [b_100] ∧ v ∈ [v_95]
      ∧ d_100_95 = columnas_diferencia
                     (mkFilaKey b (clave b), Some (mkFilaKey v (clave v)))
      ∧ idcuenta v = idcuenta b ∧ dentro 24 b v.
Proof.
  assert (conciliar [b_100] [v_95] 24
          = inr (mkSalida [unir b_100 None] [v_95] [] [d_100_95])) as Hr
    by (vm_compute; reflexivity).
  assert (d_100_95 ∈ dif_importe (mkSalida [unir b_100 None] [v_95] [] [d_100_95]))
    as Hd by (simpl; left).
  split; [exact Hr|]. split; [exact Hd|].
  exact (dif_importe_filtrado [b_100] [v_95] 24 _ d_100_95 Hr Hd).
Defined.

(** ** Exact timestamps *)

(** C3 as stated fails: two sales share account, amount and timestamp with
    the bank row, and the merge gives the bank row one of them only;
    whichever it takes, the other one is not paired. *)
Lemma par_exacto_contraejemplo :
  (∃ r, conciliar [b_ene01] [v_ene01_x; v_ene01_y] 24 = inr r
        ∧ length (conciliados r) = 1%nat
        ∧ unir b_ene01 (Some v_ene01_x) ≠ unir b_ene01 (Some v_ene01_y))
  ∧ ¬ (∀ df_banco df_ventas h b v,
         0 ≤ h → b ∈ df_banco → v ∈ df_ventas →
         idcuenta b = idcuenta v → importe b = importe v → fecha b = fecha v →
         ∃ r, conciliar df_banco df_ventas h = inr r
              ∧ unir b (Some v) ∈ conciliados r).
Proof.
  destruct (conciliar_inr [b_ene01] [v_ene01_x; v_ene01_y] 24 ltac:(lia))
    as (rows & drows & Hrows & _ & Hc).
  assert (length (columnas_conciliado <$> rows) = 1%nat) as Hlen.
  { apply conciliados_tol_spec in Hrows as (_ & Hfst & _).
    by rewrite length_fmap, <- (length_fmap fst), Hfst, length_sort_values. }
  assert (unir b_ene01 (Some v_ene01_x) ≠ unir b_ene01 (Some v_ene01_y)) as Hne
    by discriminate.
  split; [eexists; split; [exact Hc|]; by split|].
  intros Hclaim.
  destruct (Hclaim [b_ene01] [v_ene01_x; v_ene01_y] 24 b_ene01 v_ene01_x)
    as (r & Hr & Hx); [lia|left|left|reflexivity..|].
  destruct (Hclaim [b_ene01] [v_ene01_x; v_ene01_y] 24 b_ene01 v_ene01_y)
    as (r' & Hr' & Hy); [lia|left|right; left|reflexivity..|].
  rewrite Hc in Hr, Hr'. injection Hr as <-. injection Hr' as <-. simpl in Hx, Hy.
  destruct (columnas_conciliado <$> rows) as [|c [|??]]; try discriminate Hlen.
  apply list_elem_of_singleton in Hx, Hy. congruence.
Qed.

(** C3, amended: when a bank row and a sale have the same key text (the
    account followed by the text of the amount cell; as when they share
    the account and an amount held the same way, see [clave_misma]) and
    the same timestamp, then for a tolerance of 0 to 2562047 hours the
    first frame has a row with the columns of the bank row and the columns
    of a sale that has that key text and that timestamp; the sale is that
    very one when no other sale has that key text and timestamp. *)
Theorem par_exacto df_banco df_ventas h b v :
  0 ≤ h < 2562048 → b ∈ df_banco → v ∈ df_ventas →
  clave b = clave v → fecha b = fecha v →
  ∃ r, conciliar df_banco df_ventas h = inr r
    ∧ (∃ v', v' ∈ df_ventas ∧ clave v' = clave b ∧ fecha v' = fecha b
             ∧ unir b (Some v') ∈ conciliados r)
    ∧ ((∀ v', v' ∈ df_ventas → clave v' = clave b → fecha v' = fecha b → v' = v) →
       unir b (Some v) ∈ conciliados r).
Proof.
  intros Hh Hb Hv Hk Hf.
  destruct (conciliar_inr df_banco df_ventas h Hh) as (rows & drows & Hrows & _ & Hc).
  eexists. split; [exact Hc|]. simpl.
  pose proof (conciliados_tol_spec _ _ _ _ Hrows) as (_ & _ & Hall & Hr).
  assert (∃ v', v' ∈ df_ventas ∧ clave v' = clave b ∧ fecha v' = fecha b
                ∧ unir b (Some v') ∈ columnas_conciliado <$> rows) as Hex.
  { destruct (Hall b Hb) as [o Hin].
    destruct (Hr _ _ Hin) as (b' & _ & [= <-] & Ho).
    destruct o as [vk|].
    - destruct Ho as (v' & Hv' & -> & Hk' & _ & Hnear).
      exists v'. split; [done|]. split; [done|]. split.
      + specialize (Hnear v Hv (eq_sym Hk)). lia.
      + apply list_elem_of_fmap.
        exists (mkFilaKey b (clave b), Some (mkFilaKey v' (clave v'))).
        by split.
    - destruct (Ho v Hv (eq_sym Hk)).
      unfold dentro, horas_ns. lia. }
  split; [exact Hex|].
  intros Huniq. destruct Hex as (v' & Hv' & Hk' & Hf' & Hin).
  by rewrite <- (Huniq v' Hv' Hk' Hf').
Qed.

Lemma par_exacto_witness :
  0 ≤ 24 < 2562048 ∧ b_ene01 ∈ [b_ene01] ∧ v_ene01 ∈ [v_ene01; v_ene05]
  ∧ clave b_ene01 = clave v_ene01
  ∧ fecha b_ene01 = fecha v_ene01
  ∧ ∃ r, conciliar [b_ene01] [v_ene01; v_ene05] 24 = inr r
    ∧ (∃ v', v' ∈ [v_ene01; v_ene05] ∧ clave v' = clave b_ene01
             ∧ fecha v' = fecha b_ene01
             ∧ unir b_ene01 (Some v') ∈ conciliados r)
    ∧ ((∀ v', v' ∈ [v_ene01; v_ene05] → clave v' = clave b_ene01 →
              fecha v' = fecha b_ene01 → v' = v_ene01) →
       unir b_ene01 (Some v_ene01) ∈ conciliados r).
Proof.
  assert (0 ≤ 24 < 2562048) as Hh by lia.
  assert (b_ene01 ∈ [b_ene01]) as Hb by left.
  assert (v_ene01 ∈ [v_ene01; v_ene05]) as Hv by left.
  assert (clave b_ene01 = clave v_ene01) as Hk by reflexivity.
  assert (fecha b_ene01 = fecha v_ene01) as Hf by reflexivity.
  repeat (split; [done|]).
  exact (par_exacto [b_ene01] [v_ene01; v_ene05] 24 b_ene01 v_ene01 Hh Hb Hv Hk Hf).
Defined.

(** ** The tolerance boundary *)



(** ** One sale, several bank rows *)





(** ** The inputs in memory *)

Lemma fresh_dom_None (σ : Memoria) : σ !! fresh (dom σ) = None.
Proof. apply not_elem_of_dom, is_fresh. Qed.

(** C9: the call works on copies.  After [conciliar_mem] every frame that
    was in memory before the call, the two inputs among them, is what it
    was; the value returned is that of [conciliar] on the rows read from
    the inputs. *)
Theorem conciliar_mem_entradas_intactas (σ : Memoria) df_banco df_ventas h ob ov :
  σ !! df_banco = Some ob →
  σ !! df_ventas = Some ov →
  ∃ σ', conciliar_mem df_banco df_ventas h σ
        = Some (conciliar (filas_de ob) (filas_de ov) h, σ')
      ∧ σ' !! df_banco = Some ob
      ∧ σ' !! df_ventas = Some ov
      ∧ ∀ r, r ∈ dom σ → σ' !! r = σ !! r.
Proof.
  intros Hb Hv.
  unfold conciliar_mem, mbind, M_bind, mret, M_ret.
  unfold copy at 1. rewrite Hb.
  pose proof (fresh_dom_None σ) as Hr1.
  set (r1 := fresh (dom σ)) in *.
  set (σ1 := <[r1:=ob]> σ).
  assert (σ1 !! df_ventas = Some ov) as Hv1.
  { unfold σ1. rewrite lookup_insert_ne; [done|congruence]. }
  unfold copy. rewrite Hv1.
  pose proof (fresh_dom_None σ1) as Hr2.
  set (r2 := fresh (dom σ1)) in *.
  assert (r2 ≠ r1) as Hne.
  { intros Heq. rewrite Heq in Hr2. unfold σ1 in Hr2.
    by rewrite lookup_insert_eq in Hr2. }
  assert (σ !! r2 = None) as Hr2'.
  { unfold σ1 in Hr2. by rewrite lookup_insert_ne in Hr2. }
  unfold setitem_key at 1.
  rewrite lookup_insert_ne by done. unfold σ1 at 1. rewrite lookup_insert_eq.
  unfold setitem_key.
  rewrite lookup_insert_ne by done. rewrite lookup_insert_eq.
  unfold leer_key at 1.
  rewrite lookup_insert_ne by done. rewrite lookup_insert_eq.
  unfold leer_key. rewrite lookup_insert_eq.
  eexists. split; [reflexivity|].
  assert (∀ r, is_Some (σ !! r) →
    <[r2:=FrameKey (asignar_key (filas_de ov))]>
      (<[r1:=FrameKey (asignar_key (filas_de ob))]> (<[r2:=ov]> σ1)) !! r = σ !! r)
    as Hframe.
  { intros r [o Hr].
    rewrite !lookup_insert_ne by congruence.
    unfold σ1. rewrite lookup_insert_ne by congruence. done. }
  split; [|split].
  - rewrite Hframe by eauto. done.
  - rewrite Hframe by eauto. done.
  - intros r Hr%elem_of_dom. by apply Hframe.
Qed.

Lemma conciliar_mem_entradas_intactas_witness :
  ({[ 0%nat := Frame [b_ene01]; 1%nat := Frame [v_ene05] ]} : Memoria) !! 0%nat
    = Some (Frame [b_ene01])
  ∧ ({[ 0%nat := Frame [b_ene01]; 1%nat := Frame [v_ene05] ]} : Memoria) !! 1%nat
    = Some (Frame [v_ene05])
  ∧ ∃ σ', conciliar_mem 0 1 24 {[ 0%nat := Frame [b_ene01]; 1%nat := Frame [v_ene05] ]}
        = Some (conciliar [b_ene01] [v_ene05] 24, σ')
      ∧ σ' !! 0%nat = Some (Frame [b_ene01])
      ∧ σ' !! 1%nat = Some (Frame [v_ene05])
      ∧ ∀ r, r ∈ dom ({[ 0%nat := Frame [b_ene01]; 1%nat := Frame [v_ene05] ]} : Memoria) →
             σ' !! r
             = ({[ 0%nat := Frame [b_ene01]; 1%nat := Frame [v_ene05] ]} : Memoria) !! r.
Proof.
  assert (({[ 0%nat := Frame [b_ene01]; 1%nat := Frame [v_ene05] ]} : Memoria) !! 0%nat
          = Some (Frame [b_ene01])) as H0 by reflexivity.
  assert (({[ 0%nat := Frame [b_ene01]; 1%nat := Frame [v_ene05] ]} : Memoria) !! 1%nat
          = Some (Frame [v_ene05])) as H1 by reflexivity.
  split; [exact H0|]. split; [exact H1|].
  exact (conciliar_mem_entradas_intactas _ 0%nat 1%nat 24 _ _ H0 H1).
Defined.

(** * Further properties of the code *)

(** ** Order of the rows *)

Lemma insertar_fmap {A B} (f : A → B) (on : B → Z) (on' : A → Z) x l :
  (∀ a, on (f a) = on' a) →
  insertar on (f x) (f <$> l) = f <$> insertar on' x l.
Proof.
  intros Hon. induction l as [|y l IH]; [done|].
  rewrite !fmap_cons. cbn [insertar]. rewrite !Hon.
  case_decide; [done|]. by rewrite fmap_cons, IH.
Qed.

Lemma sort_values_fmap {A B} (f : A → B) (on : B → Z) (on' : A → Z) l :
  (∀ a, on (f a) = on' a) →
  sort_values on (f <$> l) = f <$> sort_values on' l.
Proof.
  intros Hon. induction l as [|x l IH]; [done|].
  unfold sort_values in *. rewrite fmap_cons. cbn [foldr].
  rewrite IH. by apply insertar_fmap.
Qed.

Lemma StronglySorted_filter {A} (R : relation A) (P : A → Prop)
    `{∀ x, Decision (P x)} l :
  StronglySorted R l → StronglySorted R (filter P l).
Proof.
  induction 1 as [|x l Hs IH Hall]; [constructor|].
  rewrite filter_cons. case_decide; [|done].
  constructor; [done|].
  apply Forall_forall. intros y [_ Hy]%list_elem_of_filter.
  by apply (proj1 (Forall_forall _ _) Hall).
Qed.

Lemma StronglySorted_fmap_inv {A B} (f : A → B) (R : relation B) l :
  StronglySorted R (f <$> l) → StronglySorted (λ x y, R (f x) (f y)) l.
Proof.
  induction l as [|x l IH]; [constructor|].
  rewrite fmap_cons. intros [Hs Hall]%StronglySorted_inv.
  constructor; [by apply IH|].
  by rewrite Forall_fmap in Hall.
Qed.

(** X1 (lines 57-65 and 75-87): the rows of the first frame are in
    ascending order of ['fecha'], and so are the rows of the frame of
    differences. *)
Theorem conciliados_en_orden_de_fecha df_banco df_ventas h r :
  conciliar df_banco df_ventas h = inr r →
  StronglySorted Z.le (c_fecha <$> conciliados r)
  ∧ StronglySorted Z.le (d_fecha <$> dif_importe r).
Proof.
  intros Hr. pose proof (conciliar_inr_nonneg _ _ _ _ Hr) as Hh.
  destruct (conciliar_inr df_banco df_ventas h Hh)
    as (rows & drows & Hrows & Hdrows & Hc).
  rewrite Hc in Hr. injection Hr as <-. simpl.
  apply conciliados_tol_spec in Hrows as (_ & Hfst & _).
  apply dif_importe_merge_spec in Hdrows as (_ & Hdfst & _).
  split.
  - apply (StronglySorted_fmap c_fecha (λ x y, c_fecha x ≤ c_fecha y)); [done|].
    apply (StronglySorted_fmap columnas_conciliado
             (λ p q, fecha_k p.1 ≤ fecha_k q.1)); [done|].
    apply (StronglySorted_fmap_inv fst (λ x y, fecha_k x ≤ fecha_k y)).
    rewrite Hfst. apply sort_values_sorted.
  - apply (StronglySorted_fmap d_fecha (λ x y, d_fecha x ≤ d_fecha y)); [done|].
    do 2 apply StronglySorted_filter.
    apply (StronglySorted_fmap columnas_diferencia
             (λ p q, fecha_k p.1 ≤ fecha_k q.1)); [done|].
    apply (StronglySorted_fmap_inv fst (λ x y, fecha_k x ≤ fecha_k y)).
    rewrite Hdfst. apply sort_values_sorted.
Qed.

Lemma conciliados_en_orden_de_fecha_witness :
  conciliar [b_ene01_1h; b_ene01] [v_ene01] 24 = inr salida_dos_depositos
  ∧ StronglySorted Z.le (c_fecha <$> conciliados salida_dos_depositos)
  ∧ StronglySorted Z.le (d_fecha <$> dif_importe salida_dos_depositos).
Proof.
  assert (conciliar [b_ene01_1h; b_ene01] [v_ene01] 24 = inr salida_dos_depositos)
    as Hr by (vm_compute; reflexivity).
  split; [exact Hr|].
  exact (conciliados_en_orden_de_fecha [b_ene01_1h; b_ene01] [v_ene01] 24 _ Hr).
Defined.

(** ** Residual frames *)



(** ** The nearest sale *)

Section Empate.
Context {A K : Type} `{EqDecision K} (on : A → Z) (by_ : A → K).

(** A later row is chosen only when it is strictly closer than every row
    of the group that is not later than the left row. *)
Lemma asof_nearest_tie tol right l r x :
  StronglySorted (λ x y, on x ≤ on y) right →
  asof_nearest on by_ tol right l = Some r →
  on l < on r →
  x ∈ right → by_ x = by_ l → on x ≤ on l →
  on r - on l < on l - on x.
Proof.
  intros Hs Hn Hlt Hx Hby Hle. unfold asof_nearest in Hn.
  destruct (asof_backward_cases on by_ tol right l x Hs Hx Hby Hle)
    as [(m & Hm & ?)|[Hm ?]]; rewrite Hm in Hn.
  - apply asof_backward_Some in Hm as (?&?&?&?).
    destruct (asof_forward _ _ _ _ _) as [f|] eqn:Hf;
      [apply asof_forward_Some in Hf as (?&?&?&?); case_decide|];
      injection Hn as <-; lia.
  - destruct (asof_forward _ _ _ _ _) as [f|] eqn:Hf; [|done].
    apply asof_forward_Some in Hf as (?&?&?&?). injection Hn as <-. lia.
Qed.
End Empate.

(** X3 (lines 57-65): the sale paired with a bank row is a nearest one among
    the sales of its key, and of two sales equally near, one before and one
    after the bank row, the one that is not later is taken. *)
Theorem venta_mas_cercana df_banco df_ventas h rows b v :
  conciliados_tol (asignar_key df_banco) (asignar_key df_ventas) h = inr rows →
  (mkFilaKey b (clave b), Some (mkFilaKey v (clave v))) ∈ rows →
  ∀ x, x ∈ df_ventas → clave x = clave b →
       Z.abs (fecha b - fecha v) ≤ Z.abs (fecha b - fecha x)
       ∧ (fecha b < fecha v → fecha x ≤ fecha b →
          fecha v - fecha b < fecha b - fecha x).
Proof.
  intros Hrows Hin x Hx Hk.
  pose proof (conciliados_tol_spec _ _ _ _ Hrows) as (Hh & _ & _ & Hr).
  split.
  - destruct (Hr _ _ Hin) as (b' & _ & [= <-] & v' & _ & [= <-] & _ & _ & Hnear).
    by apply Hnear.
  - intros Hlt Hle.
    apply conciliados_tol_merge in Hrows as [_ Hrows].
    rewrite merge_asof_inr in Hrows by (unfold horas_ns; lia).
    injection Hrows as <-.
    apply list_elem_of_fmap in Hin as (bk & [= <- Hn] & _).
    symmetry in Hn.
    apply (asof_nearest_tie fecha_k key _ _ _ _ (mkFilaKey x (clave x))
             (sort_values_sorted _ _) Hn); simpl; try done.
    apply elem_of_sort_values, elem_of_asignar_key. eauto.
Qed.

Lemma venta_mas_cercana_witness :
  conciliados_tol (asignar_key [b_ene01])
    (asignar_key [v_ene01_mas1h; v_ene01_menos1h]) 24
  = inr [(mkFilaKey b_ene01 (clave b_ene01),
          Some (mkFilaKey v_ene01_menos1h (clave v_ene01_menos1h)))]
  ∧ (mkFilaKey b_ene01 (clave b_ene01),
     Some (mkFilaKey v_ene01_menos1h (clave v_ene01_menos1h)))
    ∈ [(mkFilaKey b_ene01 (clave b_ene01),
        Some (mkFilaKey v_ene01_menos1h (clave v_ene01_menos1h)))]
  ∧ ∀ x, x ∈ [v_ene01_mas1h; v_ene01_menos1h] → clave x = clave b_ene01 →
       Z.abs (fecha b_ene01 - fecha v_ene01_menos1h) ≤ Z.abs (fecha b_ene01 - fecha x)
       ∧ (fecha b_ene01 < fecha v_ene01_menos1h → fecha x ≤ fecha b_ene01 →
          fecha v_ene01_menos1h - fecha b_ene01 < fecha b_ene01 - fecha x).
Proof.
  assert (conciliados_tol (asignar_key [b_ene01])
            (asignar_key [v_ene01_mas1h; v_ene01_menos1h]) 24
          = inr [(mkFilaKey b_ene01 (clave b_ene01),
                  Some (mkFilaKey v_ene01_menos1h (clave v_ene01_menos1h)))]) as Hr
    by (vm_compute; reflexivity).
  assert ((mkFilaKey b_ene01 (clave b_ene01),
           Some (mkFilaKey v_ene01_menos1h (clave v_ene01_menos1h)))
          ∈ [(mkFilaKey b_ene01 (clave b_ene01),
              Some (mkFilaKey v_ene01_menos1h (clave v_ene01_menos1h)))]) as Hin
    by left.
  split; [exact Hr|]. split; [exact Hin|].
  exact (venta_mas_cercana [b_ene01] [v_ene01_mas1h; v_ene01_menos1h] 24 _
           b_ene01 v_ene01_menos1h Hr Hin).
Defined.

(** ** Tolerances that are refused *)

(** X4 (lines 57-65): outside the tolerances of 0 to 2562047 hours
    [conciliar] returns no frame: the construction of the tolerance
    overflows from 2562048 hours on, in either direction, and the merge
    refuses a negative tolerance short of that. *)
Theorem tolerancia_rechazada df_banco df_ventas h :
  ¬ (0 ≤ h < 2562048) →
  conciliar df_banco df_ventas h
  = inl (if decide (-2562048 < h < 0) then MergeError else OutOfBoundsTimedelta).
Proof.
  intros Hh. unfold conciliar, conciliar_cuerpo, conciliados_tol. cbv zeta.
  unfold Timedelta_hours, merge_asof, horas_ns.
  repeat case_decide; try done; lia.
Qed.

Lemma tolerancia_rechazada_witness :
  ¬ (0 ≤ -1 < 2562048) ∧ ¬ (0 ≤ 2562048 < 2562048)
  ∧ conciliar [b_ene01] [v_ene01] (-1) = inl MergeError
  ∧ conciliar [b_ene01] [v_ene01] 2562048 = inl OutOfBoundsTimedelta.
Proof.
  assert (¬ (0 ≤ -1 < 2562048)) as H1 by lia.
  assert (¬ (0 ≤ 2562048 < 2562048)) as H2 by lia.
  split; [exact H1|]. split; [exact H2|]. split.
  - exact (tolerancia_rechazada [b_ene01] [v_ene01] (-1) H1).
  - exact (tolerancia_rechazada [b_ene01] [v_ene01] 2562048 H2).
Defined.

(** ** Amount differences, from the bank row *)

(** X5 (lines 75-85): the frame of differences has at most one row per bank
    row; a bank row that has a sale of its account within the tolerance,
    and none of them with its amount, does appear there. *)
Theorem dif_importe_completo df_banco df_ventas h r :
  conciliar df_banco df_ventas h = inr r →
  (length (dif_importe r) ≤ length df_banco)%nat
  ∧ ∀ b, b ∈ df_banco →
      (∃ v, v ∈ df_ventas ∧ idcuenta v = idcuenta b ∧ dentro h b v) →
      (∀ v, v ∈ df_ventas → idcuenta v = idcuenta b → dentro h b v →
            importe v ≠ importe b) →
      ∃ v, v ∈ df_ventas ∧ idcuenta v = idcuenta b ∧ dentro h b v
           ∧ columnas_diferencia
               (mkFilaKey b (clave b), Some (mkFilaKey v (clave v)))
             ∈ dif_importe r.
Proof.
  intros Hr. pose proof (conciliar_inr_nonneg _ _ _ _ Hr) as Hh.
  destruct (conciliar_inr df_banco df_ventas h Hh) as (rows & drows & _ & Hdr & Hc).
  rewrite Hc in Hr. injection Hr as <-. simpl.
  apply dif_importe_merge_spec in Hdr as (_ & Hfst & Hall & Hrows).
  split.
  - etrans; [apply length_filter|]. etrans; [apply length_filter|].
    rewrite length_fmap, <- (length_fmap fst), Hfst, length_sort_values.
    unfold asignar_key. by rewrite length_fmap.
  - intros b Hb (v0 & Hv0 & Hid0 & Hd0) Hdif.
    destruct (Hall b Hb) as [o Hin].
    destruct (Hrows _ _ Hin) as (b' & _ & [= <-] & Ho).
    destruct o as [vk|]; [|by destruct (Ho v0)].
    destruct Ho as (v & Hv & -> & Hid & Hd & _).
    exists v. repeat split; [done..|].
    apply list_elem_of_filter. split; [by eexists|].
    apply list_elem_of_filter. split.
    + simpl. intros [= Heq]. by apply (Hdif v).
    + apply list_elem_of_fmap. by eexists.
Qed.

Lemma dif_importe_completo_witness :
  conciliar [b_100] [v_95] 24 = inr (mkSalida [unir b_100 None] [v_95] [] [d_100_95])
  ∧ (length (dif_importe (mkSalida [unir b_100 None] [v_95] [] [d_100_95]))
     ≤ length [b_100])%nat
  ∧ ∀ b, b ∈ [b_100] →
      (∃ v, v ∈ [v_95] ∧ idcuenta v = idcuenta b ∧ dentro 24 b v) →
      (∀ v, v ∈ [v_95] → idcuenta v = idcuenta b → dentro 24 b v →
            importe v ≠ importe b) →
      ∃ v, v ∈ [v_95] ∧ idcuenta v = idcuenta b ∧ dentro 24 b v
           ∧ columnas_diferencia
               (mkFilaKey b (clave b), Some (mkFilaKey v (clave v)))
             ∈ dif_importe (mkSalida [unir b_100 None] [v_95] [] [d_100_95]).
Proof.
  assert (conciliar [b_100] [v_95] 24
          = inr (mkSalida [unir b_100 None] [v_95] [] [d_100_95])) as Hr
    by (vm_compute; reflexivity).
  split; [exact Hr|].
  exact (dif_importe_completo [b_100] [v_95] 24 _ Hr).
Defined.

(** ** The text of an amount *)

Lemma pretty_N_char_sin x :
  pretty_N_char x ≠ "."%char ∧ pretty_N_char x ≠ "-"%char.
Proof. unfold pretty_N_char. by repeat case_match. Qed.

Lemma pretty_N_go_sin x s :
  sin_punto_ni_signo s → sin_punto_ni_signo (pretty_N_go x s).
Proof.
  revert s. induction (N.lt_wf_0 x) as [x _ IH]; intros s Hs.
  destruct (decide (x = 0)%N) as [->|Hx]; [by rewrite pretty_N_go_0|].
  rewrite pretty_N_go_step by lia.
  apply IH; [apply N.div_lt; lia|].
  split; [apply pretty_N_char_sin|done].
Qed.

Lemma pretty_N_go_length x s :
  (String.length s ≤ String.length (pretty_N_go x s))%nat.
Proof.
  revert s. induction (N.lt_wf_0 x) as [x _ IH]; intros s.
  destruct (decide (x = 0)%N) as [->|Hx]; [by rewrite pretty_N_go_0|].
  rewrite pretty_N_go_step by lia.
  etrans; [|apply IH; apply N.div_lt; lia]. simpl. lia.
Qed.

(** The decimal text of a natural number is not empty and holds digits
    only. *)
Lemma pretty_N_texto (x : N) :
  sin_punto_ni_signo (pretty x) ∧ pretty x ≠ "".
Proof.
  unfold pretty, pretty_N. case_decide as Hx; [by repeat split|].
  split; [by apply pretty_N_go_sin|].
  rewrite pretty_N_go_step by lia. intros Hemp.
  pose proof (pretty_N_go_length (x `div` 10)
                (String (pretty_N_char (x `mod` 10)) "")) as Hlen.
  rewrite Hemp in Hlen. simpl in Hlen. lia.
Qed.

Lemma pretty_Z_texto (z : Z) :
  0 ≤ z → sin_punto_ni_signo (pretty z) ∧ pretty z ≠ "".
Proof.
  destruct z as [|p|p]; intros Hz; [by repeat split| |lia].
  apply (pretty_N_texto (N.pos p)).
Qed.

Lemma pretty_Z_cifra (d : Z) :
  0 ≤ d < 10 → ∃ c, pretty d = String c "".
Proof.
  intros Hd.
  assert (d = 0 ∨ d = 1 ∨ d = 2 ∨ d = 3 ∨ d = 4 ∨ d = 5 ∨ d = 6 ∨ d = 7
          ∨ d = 8 ∨ d = 9) as Hcases by lia.
  repeat destruct Hcases as [->|Hcases]; [eexists; reflexivity..|].
  subst. eexists; reflexivity.
Qed.

(** Two texts cut at their first decimal point agree part by part. *)
Lemma app_punto_inj a a' r r' :
  sin_punto_ni_signo a → sin_punto_ni_signo a' →
  a +:+ String "." r = a' +:+ String "." r' → a = a' ∧ r = r'.
Proof.
  revert a'. induction a as [|c a IH]; intros [|c' a'] Ha Ha' Heq; simpl in *.
  - by injection Heq as ->.
  - injection Heq as <- _. by destruct Ha' as [[? _] _].
  - injection Heq as -> _. by destruct Ha as [[? _] _].
  - injection Heq as -> Heq. destruct Ha as [_ Ha], Ha' as [_ Ha'].
    by destruct (IH a' Ha Ha' Heq) as [-> ->].
Qed.

Lemma app_inv_head_str s x y : s +:+ x = s +:+ y → x = y.
Proof. induction s as [|c s IH]; simpl; [done|]. intros [= ?]. by apply IH. Qed.

(** A text without point or sign is not a text cut at a point. *)
Lemma sin_punto_no_app a x r :
  sin_punto_ni_signo a → a ≠ x +:+ String "." r.
Proof.
  revert a. induction x as [|c x IH]; intros [|c' a] Ha Heq; simpl in *;
    try discriminate Heq.
  - injection Heq as -> _. by destruct Ha as [[? _] _].
  - injection Heq as _ Heq. destruct Ha as [_ Ha]. by apply (IH a).
Qed.

(** Floats that print alike have the same sign and magnitude. *)
Lemma float_str_inj s n s' n' :
  0 ≤ n → 0 ≤ n' → float_str s n = float_str s' n' → s = s' ∧ n = n'.
Proof.
  unfold float_str. intros Hn0 Hn0'.
  assert (0 ≤ n `div` 100 ∧ 0 ≤ n' `div` 100) as [HA HA']
    by (Z.div_mod_to_equations; lia).
  destruct (pretty_Z_texto _ HA) as [Hsin Hne].
  destruct (pretty_Z_texto _ HA') as [Hsin' Hne'].
  destruct (pretty_Z_cifra ((n `mod` 100) `div` 10)) as [cd Hcd];
    [Z.div_mod_to_equations; lia|].
  destruct (pretty_Z_cifra ((n' `mod` 100) `div` 10)) as [cd' Hcd'];
    [Z.div_mod_to_equations; lia|].
  destruct (pretty_Z_cifra (n `mod` 10)) as [cu Hcu];
    [Z.div_mod_to_equations; lia|].
  destruct (pretty_Z_cifra (n' `mod` 10)) as [cu' Hcu'];
    [Z.div_mod_to_equations; lia|].
  intros Heq.
  assert (pretty (n `div` 100) +:+ String "." (pretty ((n `mod` 100) `div` 10)
            +:+ (if decide (n `mod` 10 = 0) then "" else pretty (n `mod` 10)))
          = pretty (n' `div` 100) +:+ String "." (pretty ((n' `mod` 100) `div` 10)
            +:+ (if decide (n' `mod` 10 = 0) then "" else pretty (n' `mod` 10)))
          ∧ s = s') as [Hcore Hsgn].
  { destruct s, s'; simpl in Heq.
    - injection Heq as Heq. by split.
    - destruct (pretty (n' `div` 100)) as [|ch rest]; [done|].
      simpl in Heq, Hsin'. injection Heq as <- _. by destruct Hsin' as [[_ ?] _].
    - destruct (pretty (n `div` 100)) as [|ch rest]; [done|].
      simpl in Heq, Hsin. injection Heq as -> _. by destruct Hsin as [[_ ?] _].
    - by split. }
  split; [exact Hsgn|].
  apply app_punto_inj in Hcore as [HAeq HR]; [|done..].
  apply (inj pretty) in HAeq.
  rewrite Hcd, Hcd' in HR. simpl in HR. injection HR as -> HU.
  rewrite <- Hcd' in Hcd. apply (inj pretty) in Hcd.
  assert (n `mod` 10 = n' `mod` 10) as Hu.
  { destruct (decide (n `mod` 10 = 0)) as [Hz|Hz],
             (decide (n' `mod` 10 = 0)) as [Hz'|Hz'].
    - lia.
    - rewrite Hcu' in HU. simpl in HU. discriminate HU.
    - rewrite Hcu in HU. simpl in HU. discriminate HU.
    - rewrite Hcu, Hcu' in HU. simpl in HU. injection HU as ->.
      rewrite <- Hcu' in Hcu. by apply (inj pretty) in Hcu. }
  Z.div_mod_to_equations; lia.
Qed.

(** An integer never prints as a float does. *)
Lemma pretty_Z_float_str (z : Z) s n : 0 ≤ n → pretty z ≠ float_str s n.
Proof.
  unfold float_str. intros Hn0.
  assert (0 ≤ n `div` 100) as HA by (Z.div_mod_to_equations; lia).
  destruct (pretty_Z_texto _ HA) as [Hsin Hne].
  destruct z as [|p|p].
  - destruct s; [done|]. simpl. apply (sin_punto_no_app "0"). by repeat split.
  - destruct (pretty_Z_texto (Z.pos p)) as [Hp _]; [lia|].
    destruct s.
    + simpl. intros Heq. rewrite Heq in Hp. by destruct Hp as [[_ ?] _].
    + simpl. by apply sin_punto_no_app.
  - destruct (pretty_Z_texto (Z.pos p)) as [Hp _]; [lia|].
    change (pretty (Z.neg p)) with ("-" +:+ pretty (Z.pos p)).
    destruct s; simpl.
    + intros [= Heq]. by apply sin_punto_no_app in Heq.
    + destruct (pretty (n `div` 100)) as [|ch rest]; [done|].
      simpl. intros [= <- _]. by destruct Hsin as [[_ ?] _].
Qed.

(** Cells that print alike are the same cell: the same number, held the
    same way. *)
Lemma astype_str_inj x y : astype_str x = astype_str y → x = y.
Proof.
  destruct x as [n|s m], y as [n'|s' m']; simpl; intros Heq.
  - by apply (inj pretty) in Heq as ->.
  - by apply pretty_Z_float_str in Heq; [|lia].
  - symmetry in Heq. by apply pretty_Z_float_str in Heq; [|lia].
  - apply float_str_inj in Heq as [-> Hm]; [|lia..].
    f_equal. lia.
Qed.

(** X6 (lines 54-55): within one account the key tells amounts apart: two
    rows of the same account with the same key have the same amount. *)
Theorem clave_separa_importes b v :
  idcuenta b = idcuenta v → clave b = clave v → importe b = importe v.
Proof.
  unfold clave, importe. intros -> Hk%app_inv_head_str.
  by rewrite (astype_str_inj _ _ Hk).
Qed.

Lemma clave_separa_importes_witness :
  idcuenta b_ene01 = idcuenta v_ene05 ∧ clave b_ene01 = clave v_ene05
  ∧ importe b_ene01 = importe v_ene05.
Proof.
  assert (idcuenta b_ene01 = idcuenta v_ene05) as Hid by reflexivity.
  assert (clave b_ene01 = clave v_ene05) as Hk by reflexivity.
  split; [exact Hid|]. split; [exact Hk|].
  exact (clave_separa_importes b_ene01 v_ene05 Hid Hk).
Defined.

(** X7 (lines 54-65): in the first frame a row whose sale is of the account
    of its bank row carries the same amount on both sides. *)
Theorem conciliados_misma_cuenta_mismo_importe df_banco df_ventas h r c :
  conciliar df_banco df_ventas h = inr r →
  c ∈ conciliados r →
  idcuenta_venta c = Some (idcuenta_banco c) →
  importe_venta c = Some (importe_banco c).
Proof.
  intros Hr Hc Hid. pose proof (conciliar_inr_nonneg _ _ _ _ Hr) as Hh.
  destruct (conciliar_inr df_banco df_ventas h Hh) as (rows & drows & Hrows & _ & Heq).
  rewrite Heq in Hr. injection Hr as <-. simpl in Hc.
  apply conciliados_tol_spec in Hrows as (_ & _ & _ & Hspec).
  apply list_elem_of_fmap in Hc as ([bk o] & -> & Hin).
  destruct (Hspec _ _ Hin) as (b & _ & -> & Ho).
  destruct o as [vk|]; [|done].
  destruct Ho as (v & _ & -> & Hk & _). simpl in *.
  injection Hid as Hid. f_equal.
  unfold clave in Hk. rewrite Hid in Hk.
  apply app_inv_head_str, astype_str_inj in Hk.
  unfold importe. by rewrite Hk.
Qed.

Lemma conciliados_misma_cuenta_mismo_importe_witness :
  conciliar [b_ene01_1h; b_ene01] [v_ene01] 24 = inr salida_dos_depositos
  ∧ unir b_ene01 (Some v_ene01) ∈ conciliados salida_dos_depositos
  ∧ idcuenta_venta (unir b_ene01 (Some v_ene01))
    = Some (idcuenta_banco (unir b_ene01 (Some v_ene01)))
  ∧ importe_venta (unir b_ene01 (Some v_ene01))
    = Some (importe_banco (unir b_ene01 (Some v_ene01))).
Proof.
  assert (conciliar [b_ene01_1h; b_ene01] [v_ene01] 24 = inr salida_dos_depositos)
    as Hr by (vm_compute; reflexivity).
  assert (unir b_ene01 (Some v_ene01) ∈ conciliados salida_dos_depositos)
    as Hc by left.
  assert (idcuenta_venta (unir b_ene01 (Some v_ene01))
          = Some (idcuenta_banco (unir b_ene01 (Some v_ene01)))) as Hid
    by reflexivity.
  split; [exact Hr|]. split; [exact Hc|]. split; [exact Hid|].
  exact (conciliados_misma_cuenta_mismo_importe
           [b_ene01_1h; b_ene01] [v_ene01] 24 _ _ Hr Hc Hid).
Defined.

(** ** Cleaning *)

Section Duplicados.
Context {A : Type} `{EqDecision A}.

Lemma elem_of_drop_duplicates (x : A) l : x ∈ drop_duplicates l ↔ x ∈ l.
Proof.
  induction l as [|a l IH]; [done|]. cbn [drop_duplicates].
  rewrite !elem_of_cons, list_elem_of_filter, IH.
  split.
  - intros [->|[_ Hx]]; [by left|by right].
  - intros [->|Hx]; [by left|].
    destruct (decide (x = a)) as [->|Hne]; [by left|by right].
Qed.

Lemma NoDup_drop_duplicates (l : list A) : NoDup (drop_duplicates l).
Proof.
  induction l as [|a l IH]; [constructor|]. cbn [drop_duplicates].
  apply NoDup_cons. split; [|by apply NoDup_filter].
  by intros [? _]%list_elem_of_filter.
Qed.

Lemma drop_duplicates_sublist (l : list A) : drop_duplicates l `sublist_of` l.
Proof.
  induction l as [|a l IH]; [done|]. cbn [drop_duplicates].
  apply sublist_skip. etrans; [apply sublist_filter|done].
Qed.

Lemma drop_duplicates_filter (P : A → Prop) `{∀ x, Decision (P x)} l :
  drop_duplicates (filter P l) = filter P (drop_duplicates l).
Proof.
  induction l as [|a l IH]; [done|]. cbn [drop_duplicates].
  rewrite !filter_cons. case_decide as HP.
  - cbn [drop_duplicates]. rewrite IH. f_equal.
    rewrite !list_filter_filter. apply list_filter_iff. tauto.
  - rewrite IH, list_filter_filter. apply list_filter_iff.
    intros x. split; [|tauto]. intros HPx. split; [done|]. by intros ->.
Qed.
End Duplicados.

Lemma omap_filter_None {A B} (f : A → option B) (P : A → Prop)
    `{∀ x, Decision (P x)} (l : list A) :
  (∀ x, ¬ P x → f x = None) → omap f (filter P l) = omap f l.
Proof.
  intros Hf. induction l as [|a l IH]; [done|].
  rewrite filter_cons. case_decide as HP.
  - csimpl. by rewrite IH.
  - csimpl. by rewrite (Hf a HP), IH.
Qed.

Lemma omap_fmap_compose {A B D} (g : A → B) (f : B → option D) (l : list A) :
  omap f (g <$> l) = omap (f ∘ g) l.
Proof. induction l as [|a l IH]; [done|]. csimpl. by rewrite IH. Qed.

Lemma NoDup_omap_inj {A B} (f : A → option B) (l : list A) :
  (∀ x y z, f x = Some z → f y = Some z → x = y) →
  NoDup l → NoDup (omap f l).
Proof.
  intros Hinj. induction 1 as [|a l Hnotin Hnd IH]; [constructor|].
  csimpl. destruct (f a) as [z|] eqn:Hfa; [|done].
  apply NoDup_cons. split; [|done].
  intros (y & Hy & Hfy)%list_elem_of_omap.
  by rewrite (Hinj a y z Hfa Hfy) in Hnotin.
Qed.

Lemma fila_limpia_Some {C} (conv : C → option Numero) (r : FilaCruda C) f :
  fila_limpia conv r = Some f ↔
  cr_idcuenta r = Some (idcuenta f)
  ∧ (∃ c, cr_importe r = Some c ∧ conv c = Some (celda_importe f))
  ∧ cr_fecha r = Some (fecha f)
  ∧ cr_otros r = otros f.
Proof.
  unfold fila_limpia, fila_de.
  destruct r as [[i|] [c|] [t|] o], f as [fi fc ft fo]; simpl;
    try destruct (conv c) as [z|] eqn:Hc; simpl;
    (split;
     [intros Heq; try discriminate Heq; injection Heq as <- <- <- <-; eauto 10
     |intros (? & (? & ? & ?) & ? & ?); simplify_eq/=; congruence]).
Qed.

(** X8 (lines 34-38): the cleaning amounts to removing repeated rows, first
    occurrence kept, and then reading every row that has its three columns
    and a numeric amount; the first [dropna] changes nothing to that, nor
    does the name passed along. *)
Theorem limpiar_datos_por_fila {C} `{EqDecision C} (conv : C → option Numero)
    (df : list (FilaCruda C)) (nombre_df : string) :
  limpiar_datos conv df nombre_df = omap (fila_limpia conv) (drop_duplicates df).
Proof.
  unfold limpiar_datos. rewrite omap_fmap_compose, drop_duplicates_filter.
  apply omap_filter_None.
  intros [[i|] [c|] [t|] o] Hno; unfold fila_limpia, fila_de; simpl;
    try destruct (conv c); simpl; try done.
  all: destruct Hno; unfold completa; simpl; eauto.
Qed.

(** X9 (lines 34-38): a row is in the cleaned frame exactly when some row
    read from the file has the account, date and other columns of it, and
    an amount cell that converts to its amount cell. *)
Theorem limpiar_datos_filas {C} `{EqDecision C} (conv : C → option Numero)
    (df : list (FilaCruda C)) (nombre_df : string) (f : Fila) :
  f ∈ limpiar_datos conv df nombre_df ↔
  ∃ r, r ∈ df
       ∧ cr_idcuenta r = Some (idcuenta f)
       ∧ (∃ c, cr_importe r = Some c ∧ conv c = Some (celda_importe f))
       ∧ cr_fecha r = Some (fecha f)
       ∧ cr_otros r = otros f.
Proof.
  unfold limpiar_datos. rewrite omap_fmap_compose, drop_duplicates_filter.
  rewrite list_elem_of_omap. split.
  - intros (r & [_ Hr]%list_elem_of_filter & Hf).
    apply (proj1 (elem_of_drop_duplicates r df)) in Hr.
    exists r. split; [done|]. by apply (fila_limpia_Some conv r f).
  - intros (r & Hr & Hf). exists r. split.
    + apply list_elem_of_filter. split; [|by apply elem_of_drop_duplicates].
      destruct Hf as (Hi & (c & Hc & _) & Ht & _).
      unfold completa. rewrite Hi, Hc, Ht. eauto.
    + by apply (fila_limpia_Some conv r f).
Qed.

(** X10 (lines 34-38): when the conversion of the amount cells tells
    different cells apart, the cleaned frame has no repeated row. *)
Theorem limpiar_datos_sin_repetidos {C} `{EqDecision C} (conv : C → option Numero)
    (df : list (FilaCruda C)) (nombre_df : string) :
  (∀ c c' z, conv c = Some z → conv c' = Some z → c = c') →
  NoDup (limpiar_datos conv df nombre_df).
Proof.
  intros Hinj. unfold limpiar_datos.
  rewrite omap_fmap_compose, drop_duplicates_filter.
  apply NoDup_omap_inj; [|apply NoDup_filter, NoDup_drop_duplicates].
  intros r r' f Hr Hr'.
  apply (fila_limpia_Some conv) in Hr as (Hi & (c & Hc & Hz) & Ht & Ho).
  apply (fila_limpia_Some conv) in Hr' as (Hi' & (c' & Hc' & Hz') & Ht' & Ho').
  pose proof (Hinj c c' _ Hz Hz') as <-.
  destruct r, r'; simpl in *. congruence.
Qed.

Lemma limpiar_datos_sin_repetidos_witness :
  (∀ c c' z : Numero, Some c = Some z → Some c' = Some z → c = c')
  ∧ NoDup (limpiar_datos Some
             [mkCruda (Some "A") (Some (float_de 10000)) (Some ene01) [];
              mkCruda (Some "A") (Some (float_de 10000)) (Some ene01) [];
              mkCruda None (Some (float_de 10000)) (Some ene01) []] "Banco").
Proof.
  assert (∀ c c' z : Numero, Some c = Some z → Some c' = Some z → c = c') as Hinj
    by (intros c c' z [= ->] [= ->]; reflexivity).
  split; [exact Hinj|].
  exact (limpiar_datos_sin_repetidos Some _ "Banco" Hinj).
Defined.

(** X11 (lines 35-36): repeated rows are removed before the amounts are
    rounded, so two rows that differ only in amount cells that convert to
    the same amount are both kept, as two equal rows. *)
Theorem limpiar_datos_repetidos_tras_redondeo {C} `{EqDecision C}
    (conv : C → option Numero) (a : string) (c c' : C) (z : Numero) (t : Z)
    (o : list string) (nombre_df : string) :
  c ≠ c' → conv c = Some z → conv c' = Some z →
  limpiar_datos conv
    [mkCruda (Some a) (Some c) (Some t) o; mkCruda (Some a) (Some c') (Some t) o]
    nombre_df
  = [mkFila_celda a z t o; mkFila_celda a z t o].
Proof.
  intros Hne Hc Hc'. unfold limpiar_datos.
  rewrite omap_fmap_compose, drop_duplicates_filter.
  cbn [drop_duplicates].
  rewrite (filter_cons_True (λ y : FilaCruda C, y ≠ _))
    by (intros [=]; congruence).
  rewrite filter_nil.
  rewrite !(filter_cons_True completa) by (unfold completa; simpl; eauto).
  rewrite filter_nil. unfold fila_de. simpl.
  by rewrite Hc, Hc'.
Qed.

Lemma limpiar_datos_repetidos_tras_redondeo_witness :
  (1000010 : Z) ≠ 1000020
  ∧ (λ m : Z, Some (float_de (m `div` 100))) 1000010 = Some (float_de 10000)
  ∧ (λ m : Z, Some (float_de (m `div` 100))) 1000020 = Some (float_de 10000)
  ∧ limpiar_datos (λ m : Z, Some (float_de (m `div` 100)))
      [mkCruda (Some "A") (Some 1000010) (Some ene01) [];
       mkCruda (Some "A") (Some 1000020) (Some ene01) []] "Banco"
    = [mkFila_celda "A" (float_de 10000) ene01 [];
       mkFila_celda "A" (float_de 10000) ene01 []].
Proof.
  assert ((1000010 : Z) ≠ 1000020) as Hne by discriminate.
  assert ((λ m : Z, Some (float_de (m `div` 100))) 1000010 = Some (float_de 10000))
    as Hc by reflexivity.
  assert ((λ m : Z, Some (float_de (m `div` 100))) 1000020 = Some (float_de 10000))
    as Hc' by reflexivity.
  split; [exact Hne|]. split; [exact Hc|]. split; [exact Hc'|].
  exact (limpiar_datos_repetidos_tras_redondeo
           (λ m : Z, Some (float_de (m `div` 100)))
           "A" 1000010 1000020 (float_de 10000) ene01 [] "Banco" Hne Hc Hc').
Defined.

(** ** The report *)

Lemma length_filter_fmap {A B} (f : A → B) (P : B → Prop) (Q : A → Prop)
    `{∀ y, Decision (P y)} `{∀ x, Decision (Q x)} (l : list A) :
  (∀ x, Q x ↔ P (f x)) →
  length (filter Q l) = length (filter P (f <$> l)).
Proof.
  intros HQ. induction l as [|a l IH]; [done|].
  rewrite fmap_cons, !filter_cons.
  destruct (decide (Q a)) as [Hq|Hq], (decide (P (f a))) as [Hp|Hp];
    simpl; rewrite ?IH; try done.
  - by apply HQ in Hq.
  - by apply HQ in Hp.
Qed.

Lemma length_conciliados df_banco df_ventas h s :
  conciliar df_banco df_ventas h = inr s →
  length (conciliados s) = length df_banco
  ∧ idcuenta_banco <$> conciliados s ≡ₚ idcuenta <$> df_banco
  ∧ (length (dif_importe s) ≤ length df_banco)%nat.
Proof.
  intros Hr. pose proof (conciliar_inr_nonneg _ _ _ _ Hr) as Hh.
  destruct (conciliar_inr df_banco df_ventas h Hh)
    as (rows & drows & Hrows & Hdr & Hc).
  rewrite Hc in Hr. injection Hr as <-. simpl.
  apply conciliados_tol_spec in Hrows as (_ & Hfst & _).
  apply dif_importe_merge_spec in Hdr as (_ & Hdfst & _).
  assert (∀ l : list (FilaKey * option FilaKey),
            l.*1 = sort_values fecha_k (asignar_key df_banco) →
            length l = length df_banco) as Hlen.
  { intros l Hl. rewrite <- (length_fmap fst), Hl, length_sort_values.
    unfold asignar_key. by rewrite length_fmap. }
  split; [|split].
  - rewrite length_fmap. by apply Hlen.
  - replace (idcuenta_banco <$> (columnas_conciliado <$> rows))
      with ((idcuenta ∘ cols) <$> rows.*1)
      by (rewrite <- !list_fmap_compose; done).
    rewrite Hfst, sort_values_perm, list_fmap_compose, cols_asignar_key. done.
  - etrans; [apply length_filter|]. etrans; [apply length_filter|].
    rewrite length_fmap. by rewrite (Hlen drows).
Qed.

(** X12 (lines 94-108, on what lines 40-87 return): in the report built
    from the frames [conciliar] returns, the count of reconciled rows is
    the count of bank rows, whether or not they found a sale; the count
    of deposits without record is zero; the other two counts do not
    exceed those of sales and of bank rows. *)
Theorem reporte_de_conciliar df_banco df_ventas h s :
  conciliar df_banco df_ventas h = inr s →
  total_conciliados
    (generar_reporte df_banco df_ventas (conciliados s) (ventas_sin_depositar s)
       (depositos_sin_registro s) (dif_importe s))
  = length df_banco
  ∧ porcentaje_conciliacion
      (generar_reporte df_banco df_ventas (conciliados s) (ventas_sin_depositar s)
         (depositos_sin_registro s) (dif_importe s))
    = porcentaje (length df_banco) (length df_ventas)
  ∧ n_depositos_sin_registro
      (generar_reporte df_banco df_ventas (conciliados s) (ventas_sin_depositar s)
         (depositos_sin_registro s) (dif_importe s))
    = 0%nat
  ∧ (n_ventas_sin_depositar
       (generar_reporte df_banco df_ventas (conciliados s) (ventas_sin_depositar s)
          (depositos_sin_registro s) (dif_importe s))
     ≤ length df_ventas)%nat
  ∧ (n_dif_importe
       (generar_reporte df_banco df_ventas (conciliados s) (ventas_sin_depositar s)
          (depositos_sin_registro s) (dif_importe s))
     ≤ length df_banco)%nat.
Proof.
  intros Hs.
  destruct (length_conciliados _ _ _ _ Hs) as (Hlen & _ & Hdif).
  destruct (residuos_por_clave _ _ _ _ Hs) as [Hdep Hven].
  cbn [generar_reporte total_conciliados porcentaje_conciliacion
       n_depositos_sin_registro n_ventas_sin_depositar n_dif_importe].
  rewrite Hlen, Hdep, Hven. repeat split; try done.
  apply length_filter.
Qed.

Lemma reporte_de_conciliar_witness :
  conciliar [b_ene01_1h; b_ene01] [v_ene05] 24
  = inr (mkSalida [unir b_ene01 None; unir b_ene01_1h None] [] [] [])
  ∧ total_conciliados
      (generar_reporte [b_ene01_1h; b_ene01] [v_ene05]
         [unir b_ene01 None; unir b_ene01_1h None] [] [] [])
    = length [b_ene01_1h; b_ene01]
  ∧ porcentaje_conciliacion
      (generar_reporte [b_ene01_1h; b_ene01] [v_ene05]
         [unir b_ene01 None; unir b_ene01_1h None] [] [] [])
    = porcentaje (length [b_ene01_1h; b_ene01]) (length [v_ene05])
  ∧ n_depositos_sin_registro
      (generar_reporte [b_ene01_1h; b_ene01] [v_ene05]
         [unir b_ene01 None; unir b_ene01_1h None] [] [] [])
    = 0%nat
  ∧ (n_ventas_sin_depositar
       (generar_reporte [b_ene01_1h; b_ene01] [v_ene05]
          [unir b_ene01 None; unir b_ene01_1h None] [] [] [])
     ≤ length [v_ene05])%nat
  ∧ (n_dif_importe
       (generar_reporte [b_ene01_1h; b_ene01] [v_ene05]
          [unir b_ene01 None; unir b_ene01_1h None] [] [] [])
     ≤ length [b_ene01_1h; b_ene01])%nat.
Proof.
  assert (conciliar [b_ene01_1h; b_ene01] [v_ene05] 24
          = inr (mkSalida [unir b_ene01 None; unir b_ene01_1h None] [] [] []))
    as Hr by (vm_compute; reflexivity).
  split; [exact Hr|].
  exact (reporte_de_conciliar [b_ene01_1h; b_ene01] [v_ene05] 24 _ Hr).
Defined.

(** X13 (lines 97 and 110-115, on what lines 40-87 return): when the sales
    frame has no row and [conciliar] returns, the quotient is not
    computed: the percentage is zero though every bank row counts as
    reconciled, no sale is reported, no difference, and the summary by
    account has no line. *)
Theorem reporte_sin_ventas df_banco h s :
  conciliar df_banco [] h = inr s →
  total_ventas
    (generar_reporte df_banco [] (conciliados s) (ventas_sin_depositar s)
       (depositos_sin_registro s) (dif_importe s)) = 0%nat
  ∧ total_conciliados
      (generar_reporte df_banco [] (conciliados s) (ventas_sin_depositar s)
         (depositos_sin_registro s) (dif_importe s)) = length df_banco
  ∧ porcentaje_conciliacion
      (generar_reporte df_banco [] (conciliados s) (ventas_sin_depositar s)
         (depositos_sin_registro s) (dif_importe s)) = 0%Qc
  ∧ n_ventas_sin_depositar
      (generar_reporte df_banco [] (conciliados s) (ventas_sin_depositar s)
         (depositos_sin_registro s) (dif_importe s)) = 0%nat
  ∧ n_dif_importe
      (generar_reporte df_banco [] (conciliados s) (ventas_sin_depositar s)
         (depositos_sin_registro s) (dif_importe s)) = 0%nat
  ∧ resumen_por_cuenta
      (generar_reporte df_banco [] (conciliados s) (ventas_sin_depositar s)
         (depositos_sin_registro s) (dif_importe s)) = [].
Proof.
  intros Hs. pose proof (conciliar_inr_nonneg _ _ _ _ Hs) as Hh.
  destruct (length_conciliados _ _ _ _ Hs) as (Hlen & _ & _).
  destruct (conciliar_inr df_banco [] h Hh) as (rows & drows & _ & Hdr & Hc).
  rewrite Hc in Hs. injection Hs as <-.
  apply dif_importe_merge_spec in Hdr as (_ & _ & _ & Hspec).
  assert (filter (λ d, is_Some (d_importe_venta d))
            (filter (λ d, Some (d_importe_banco d) ≠ d_importe_venta d)
               (columnas_diferencia <$> drows)) = []) as Hnil.
  { apply filter_ninguno. intros d [_ Hd]%list_elem_of_filter.
    apply list_elem_of_fmap in Hd as ([bk o] & -> & Hin).
    destruct (Hspec _ _ Hin) as (b & _ & -> & Ho).
    destruct o as [vk|]; [|by intros [??]].
    destruct Ho as (v & Hv' & _). by apply elem_of_nil in Hv'. }
  cbn [generar_reporte total_ventas total_conciliados porcentaje_conciliacion
       n_ventas_sin_depositar n_dif_importe resumen_por_cuenta
       ventas_sin_depositar dif_importe conciliados depositos_sin_registro]
    in *.
  rewrite Hnil, Hlen. done.
Qed.

Lemma reporte_sin_ventas_witness :
  conciliar [b_ene01] [] 24 = inr (mkSalida [unir b_ene01 None] [] [] [])
  ∧ total_ventas
      (generar_reporte [b_ene01] [] [unir b_ene01 None] [] [] []) = 0%nat
  ∧ total_conciliados
      (generar_reporte [b_ene01] [] [unir b_ene01 None] [] [] [])
    = length [b_ene01]
  ∧ porcentaje_conciliacion
      (generar_reporte [b_ene01] [] [unir b_ene01 None] [] [] []) = 0%Qc
  ∧ n_ventas_sin_depositar
      (generar_reporte [b_ene01] [] [unir b_ene01 None] [] [] []) = 0%nat
  ∧ n_dif_importe
      (generar_reporte [b_ene01] [] [unir b_ene01 None] [] [] []) = 0%nat
  ∧ resumen_por_cuenta
      (generar_reporte [b_ene01] [] [unir b_ene01 None] [] [] []) = [].
Proof.
  assert (conciliar [b_ene01] [] 24 = inr (mkSalida [unir b_ene01 None] [] [] []))
    as Hr by (vm_compute; reflexivity).
  split; [exact Hr|].
  exact (reporte_sin_ventas [b_ene01] 24 _ Hr).
Defined.

(** X14 (lines 110-115): the summary has one line per account of the sales
    frame, in order of first appearance; the count of sales of a listed
    account is never zero, and the count set against it is that of the bank
    rows of the account, paired or not. *)
Theorem resumen_por_cuenta_cuenta_depositos df_banco df_ventas h s :
  conciliar df_banco df_ventas h = inr s →
  resumen_por_cuenta
    (generar_reporte df_banco df_ventas (conciliados s) (ventas_sin_depositar s)
       (depositos_sin_registro s) (dif_importe s))
  = (λ cuenta,
       (cuenta,
        porcentaje (length (filter (λ b, idcuenta b = cuenta) df_banco))
                   (length (filter (λ v, idcuenta v = cuenta) df_ventas))))
    <$> drop_duplicates (idcuenta <$> df_ventas)
  ∧ NoDup (drop_duplicates (idcuenta <$> df_ventas))
  ∧ ∀ cuenta, cuenta ∈ drop_duplicates (idcuenta <$> df_ventas) →
      (0 < length (filter (λ v, idcuenta v = cuenta) df_ventas))%nat.
Proof.
  intros Hs. destruct (length_conciliados _ _ _ _ Hs) as (_ & Hperm & _).
  split; [|split].
  - cbn [generar_reporte resumen_por_cuenta].
    apply list_fmap_ext. intros _ cuenta _. f_equal. f_equal.
    rewrite (length_filter_fmap idcuenta_banco (λ k, k = cuenta)
               (λ c, idcuenta_banco c = cuenta)) by done.
    rewrite (length_filter_fmap idcuenta (λ k, k = cuenta)
               (λ b, idcuenta b = cuenta)) by done.
    by rewrite Hperm.
  - apply NoDup_drop_duplicates.
  - intros cuenta Hc.
    apply elem_of_drop_duplicates, list_elem_of_fmap in Hc as (v & -> & Hv).
    assert (v ∈ filter (λ v', idcuenta v' = idcuenta v) df_ventas) as Hin
      by by apply list_elem_of_filter.
    destruct (filter _ df_ventas); [by apply elem_of_nil in Hin|simpl; lia].
Qed.

Lemma resumen_por_cuenta_cuenta_depositos_witness :
  conciliar [b_ene01_1h; b_ene01] [v_ene01] 24 = inr salida_dos_depositos
  ∧ resumen_por_cuenta
      (generar_reporte [b_ene01_1h; b_ene01] [v_ene01]
         (conciliados salida_dos_depositos)
         (ventas_sin_depositar salida_dos_depositos)
         (depositos_sin_registro salida_dos_depositos)
         (dif_importe salida_dos_depositos))
    = (λ cuenta,
         (cuenta,
          porcentaje
            (length (filter (λ b, idcuenta b = cuenta) [b_ene01_1h; b_ene01]))
            (length (filter (λ v, idcuenta v = cuenta) [v_ene01]))))
      <$> drop_duplicates (idcuenta <$> [v_ene01])
  ∧ NoDup (drop_duplicates (idcuenta <$> [v_ene01]))
  ∧ ∀ cuenta, cuenta ∈ drop_duplicates (idcuenta <$> [v_ene01]) →
      (0 < length (filter (λ v, idcuenta v = cuenta) [v_ene01]))%nat.
Proof.
  assert (conciliar [b_ene01_1h; b_ene01] [v_ene01] 24 = inr salida_dos_depositos)
    as Hr by (vm_compute; reflexivity).
  split; [exact Hr|].
  exact (resumen_por_cuenta_cuenta_depositos
           [b_ene01_1h; b_ene01] [v_ene01] 24 _ Hr).
Defined.
